(** * BusTub buffer pool manager: a shallow embedding of
      [src/buffer/buffer_pool_manager.cpp] and the properties of its
      operations.

    The pool is a record holding the frame array, the page table, the free
    list, the replacer and the disk manager; every [...Impl] member function
    is a function from the pool to a result and the pool it leaves behind.
    The replacer ([ClockReplacer]) and the disk manager are collaborators
    whose sources are not part of this file's translation unit: the replacer
    is an interface with its contract, the disk manager a store that records
    every call made to it. *)

From Stdlib Require Import ZArith List.
From stdpp Require Import base tactics option list gmap fin_maps fin_sets.

#[local] Set Warnings "-clear-no-such-hyp".
Local Open Scope Z_scope.

(** ** Types of [common/config.h] *)

(** [page_id_t] is a 32-bit signed integer: [Z] below. Identifiers are only
    compared, stored and used as map keys, never computed with, so no
    wrap-around is involved.

    [frame_id_t] indexes [pages_]: [nat] below. The constructor fills the
    free list with [0 .. pool_size-1] and no operation computes a frame
    index. *)

(** Modelled from the spec: the sentinel "invalid" identifier of an unused
    frame ([INVALID_PAGE_ID] of [common/config.h]). *)
Definition INVALID_PAGE_ID : Z := -1.

(** The page size is a constant of [common/config.h]; it is a parameter of
    the development. *)
Class PageConfig := PAGE_SIZE : nat.

(** ** The page frame ([storage/page/page.h]) *)

(** [pin_count_] is a C++ [int]: 32 bits, two's complement. [int_wrap]
    brings the result of an operation on [int]s back into
    [INT_MIN .. INT_MAX], the way the hardware does on overflow. *)
Definition INT_MIN : Z := -2147483648.
Definition INT_MAX : Z := 2147483647.

Definition int_wrap (z : Z) : Z := (z + 2147483648) mod 4294967296 - 2147483648.

Lemma int_wrap_in_range (z : Z) : INT_MIN ≤ z ≤ INT_MAX → int_wrap z = z.
Proof.
  unfold INT_MIN, INT_MAX, int_wrap. intros Hz.
  rewrite Z.mod_small by lia. lia.
Qed.

Record Page := mkPage {
  data_ : list Byte.byte;
  page_id_ : Z;
  pin_count_ : Z;
  is_dirty_ : bool
}.

Definition set_data (d : list Byte.byte) (p : Page) : Page :=
  mkPage d (page_id_ p) (pin_count_ p) (is_dirty_ p).
Definition set_page_id (i : Z) (p : Page) : Page :=
  mkPage (data_ p) i (pin_count_ p) (is_dirty_ p).
Definition set_pin_count (c : Z) (p : Page) : Page :=
  mkPage (data_ p) (page_id_ p) c (is_dirty_ p).
Definition set_is_dirty (d : bool) (p : Page) : Page :=
  mkPage (data_ p) (page_id_ p) (pin_count_ p) d.

Section WithPageSize.
Context `{PageConfig}.

(** Modelled from the spec: [Page::ResetMemory] zeroes the buffer and
    touches nothing else ("reset the frame's buffer", "new pages start as
    all-zero buffers"). *)
Definition zero_buffer : list Byte.byte := replicate PAGE_SIZE Byte.x00.

Definition ResetMemory (p : Page) : Page := set_data zero_buffer p.

(** Modelled from the spec: a default-constructed [Page], the state of every
    frame of [new Page[pool_size_]]: sentinel identifier, no pin, clean,
    zeroed buffer. *)
Definition Page_new : Page := mkPage zero_buffer INVALID_PAGE_ID 0 false.

#[export] Instance Page_inhabited : Inhabited Page := populate Page_new.

End WithPageSize.

(** ** The disk manager (persistent-store collaborator) *)

(** One entry per call the pool makes on the disk manager, oldest first. *)
Inductive DiskCall :=
| CallRead (page_id : Z)
| CallWrite (page_id : Z) (buf : list Byte.byte)
| CallAllocate (page_id : Z)
| CallDeallocate (page_id : Z).

Record DiskManager := mkDisk {
  stored : gmap Z (list Byte.byte);
  next_page_id : Z;
  calls : list DiskCall
}.

Section Disk.
Context `{PageConfig}.

(** Modelled from the spec: [read_page(identifier) -> buffer]. A page that
    was never written reads as zeroes. *)
Definition ReadPage (page_id : Z) (d : DiskManager) : list Byte.byte * DiskManager :=
  (default zero_buffer (stored d !! page_id),
   mkDisk (stored d) (next_page_id d) (calls d ++ [CallRead page_id])).

(** Modelled from the spec: [write_page(identifier, buffer)]. *)
Definition WritePage (page_id : Z) (buf : list Byte.byte) (d : DiskManager) : DiskManager :=
  mkDisk (<[page_id := buf]> (stored d)) (next_page_id d)
         (calls d ++ [CallWrite page_id buf]).

(** Modelled from the spec: [allocate_page() -> identifier], "a fresh,
    previously unused identifier": the next value of a counter. *)
Definition AllocatePage (d : DiskManager) : Z * DiskManager :=
  (next_page_id d,
   mkDisk (stored d) (next_page_id d + 1) (calls d ++ [CallAllocate (next_page_id d)])).

(** Modelled from the spec: [deallocate_page(identifier)], no return value. *)
Definition DeallocatePage (page_id : Z) (d : DiskManager) : DiskManager :=
  mkDisk (stored d) (next_page_id d) (calls d ++ [CallDeallocate page_id]).

End Disk.

(** ** The replacer (eviction-candidate chooser) *)

(** Modelled from the spec: the chooser's interface [pin], [unpin],
    [select_victim] of [buffer/clock_replacer.h]. [evictable r] is the set of
    frames the replacer holds as candidates; the laws are the contract the
    pool relies on, the policy that picks among candidates is left open. *)
Class Replacer (R : Type) := {
  Replacer_new : nat → R;
  Pin : nat → R → R;
  Unpin : nat → R → R;
  Victim : R → option nat * R;
  evictable : R → gset nat;
  evictable_new n : evictable (Replacer_new n) = ∅;
  evictable_Pin f r : evictable (Pin f r) = evictable r ∖ {[f]};
  evictable_Unpin f r : evictable (Unpin f r) = {[f]} ∪ evictable r;
  Victim_Some r f r' :
    Victim r = (Some f, r') → f ∈ evictable r ∧ evictable r' = evictable r ∖ {[f]};
  Victim_None r r' :
    Victim r = (None, r') → evictable r = ∅ ∧ evictable r' = ∅
}.

(** A replacer that satisfies the contract, for the concrete pools at the
    end of the file: candidates in a queue, the oldest one is the victim.
    Those pools never offer it more than one candidate, so the policy does
    not matter there. *)
Definition QueueReplacer := list nat.

Definition queue_Pin (f : nat) (q : QueueReplacer) : QueueReplacer :=
  filter (λ g, g ≠ f) q.

Definition queue_Unpin (f : nat) (q : QueueReplacer) : QueueReplacer :=
  if decide (f ∈ q) then q else q ++ [f].

Definition queue_Victim (q : QueueReplacer) : option nat * QueueReplacer :=
  match q with
  | [] => (None, [])
  | f :: q' => (Some f, queue_Pin f q')
  end.

Definition queue_evictable (q : QueueReplacer) : gset nat := list_to_set q.

Lemma queue_evictable_Pin f q :
  queue_evictable (queue_Pin f q) = queue_evictable q ∖ {[f]}.
Proof.
  unfold queue_evictable, queue_Pin. apply set_eq. intros g.
  rewrite elem_of_difference, !elem_of_list_to_set, list_elem_of_filter.
  rewrite elem_of_singleton. tauto.
Qed.

Lemma queue_evictable_Unpin f q :
  queue_evictable (queue_Unpin f q) = {[f]} ∪ queue_evictable q.
Proof.
  unfold queue_evictable, queue_Unpin. apply set_eq. intros g.
  rewrite elem_of_union, elem_of_singleton.
  destruct (decide (f ∈ q)) as [Hin|Hout].
  - rewrite elem_of_list_to_set. split; [tauto|]. intros [->|Hg]; assumption.
  - rewrite list_to_set_app_L, elem_of_union, !elem_of_list_to_set.
    rewrite list_elem_of_singleton. tauto.
Qed.

Lemma queue_Victim_Some q f q' :
  queue_Victim q = (Some f, q') →
  f ∈ queue_evictable q ∧ queue_evictable q' = queue_evictable q ∖ {[f]}.
Proof.
  destruct q as [|g q]; simpl; intros Hv; [discriminate|].
  injection Hv as <- <-. rewrite queue_evictable_Pin.
  unfold queue_evictable. simpl. split.
  - apply elem_of_union_l, elem_of_singleton. reflexivity.
  - apply set_eq. intros x.
    rewrite !elem_of_difference, elem_of_union, elem_of_singleton. tauto.
Qed.

Lemma queue_Victim_None q q' :
  queue_Victim q = (None, q') → queue_evictable q = ∅ ∧ queue_evictable q' = ∅.
Proof.
  destruct q as [|g q]; simpl; intros Hv; [|discriminate].
  injection Hv as <-. split; reflexivity.
Qed.

#[export] Instance queue_replacer : Replacer QueueReplacer := {|
  Replacer_new _ := [];
  Pin := queue_Pin;
  Unpin := queue_Unpin;
  Victim := queue_Victim;
  evictable := queue_evictable;
  evictable_new _ := eq_refl;
  evictable_Pin := queue_evictable_Pin;
  evictable_Unpin := queue_evictable_Unpin;
  Victim_Some := queue_Victim_Some;
  Victim_None := queue_Victim_None
|}.

(** ** The buffer pool manager *)

Record BufferPoolManager (R : Type) := mkBPM {
  pool_size_ : nat;
  pages_ : list Page;
  page_table_ : gmap Z nat;
  free_list_ : list nat;
  replacer_ : R;
  disk_manager_ : DiskManager
}.
Arguments mkBPM {R}.
Arguments pool_size_ {R}.
Arguments pages_ {R}.
Arguments page_table_ {R}.
Arguments free_list_ {R}.
Arguments replacer_ {R}.
Arguments disk_manager_ {R}.

Section Pool.
Context `{PageConfig} {R : Type} `{!Replacer R}.

Definition set_pages (ps : list Page) (b : BufferPoolManager R) :=
  mkBPM (pool_size_ b) ps (page_table_ b) (free_list_ b) (replacer_ b) (disk_manager_ b).
Definition set_page_table (pt : gmap Z nat) (b : BufferPoolManager R) :=
  mkBPM (pool_size_ b) (pages_ b) pt (free_list_ b) (replacer_ b) (disk_manager_ b).
Definition set_free_list (fl : list nat) (b : BufferPoolManager R) :=
  mkBPM (pool_size_ b) (pages_ b) (page_table_ b) fl (replacer_ b) (disk_manager_ b).
Definition set_replacer (r : R) (b : BufferPoolManager R) :=
  mkBPM (pool_size_ b) (pages_ b) (page_table_ b) (free_list_ b) r (disk_manager_ b).
Definition set_disk_manager (d : DiskManager) (b : BufferPoolManager R) :=
  mkBPM (pool_size_ b) (pages_ b) (page_table_ b) (free_list_ b) (replacer_ b) d.

(** [pages_[f]]. Indexing outside the array is undefined in C++; the model
    reads the default frame there. [pool_inv] below shows that every index
    in the free list, in the page table and offered by the replacer is
    inside the array, in a pool reached by calls whose delete_page reads are
    intact. *)
Definition page_at (f : nat) (b : BufferPoolManager R) : Page := pages_ b !!! f.

(** A write through [Page *page = &pages_[f]]. *)
Definition set_page_at (f : nat) (p : Page) (b : BufferPoolManager R) :=
  set_pages (<[f := p]> (pages_ b)) b.

(** The constructor: [pool_size] default frames, a new replacer, every
    frame index in the free list, in increasing order. *)
Definition BufferPoolManager_new (pool_size : nat) (disk_manager : DiskManager)
  : BufferPoolManager R :=
  mkBPM pool_size (replicate pool_size Page_new) ∅ (seq 0 pool_size)
        (Replacer_new pool_size) disk_manager.

(** [GetVictimPage]: the frame index stands for the returned [Page*]
    ([None] for [nullptr]) and for the out-parameter [*frame_id]. *)
Definition GetVictimPage (b : BufferPoolManager R) : option nat * BufferPoolManager R :=
  match free_list_ b with
  | [] =>
      match Victim (replacer_ b) with
      | (Some frame_id, r) => (Some frame_id, set_replacer r b)
      | (None, r) => (None, set_replacer r b)
      end
  | frame_id :: rest => (Some frame_id, set_free_list rest b)
  end.

(** [FetchPageImpl]: returns the frame holding the page, [None] for
    [nullptr]. [pin_count_++] is an increment of an [int] and wraps. *)
Definition FetchPageImpl (page_id : Z) (b : BufferPoolManager R)
  : option nat * BufferPoolManager R :=
  match page_table_ b !! page_id with
  | Some f =>
      let b := set_replacer (Pin f (replacer_ b)) b in
      let page := page_at f b in
      let b := set_page_at f (set_pin_count (int_wrap (pin_count_ page + 1)) page) b in
      (Some f, b)
  | None =>
      match GetVictimPage b with
      | (Some frame_id, b) =>
          let page := page_at frame_id b in
          let b := if is_dirty_ page
                   then set_disk_manager
                          (WritePage (page_id_ page) (data_ page) (disk_manager_ b)) b
                   else b in
          let b := set_page_table (delete (page_id_ page) (page_table_ b)) b in
          let b := set_page_table (<[page_id := frame_id]> (page_table_ b)) b in
          let page := ResetMemory page in
          let page := set_page_id page_id page in
          let page := set_pin_count 1 page in
          let '(buf, d) := ReadPage page_id (disk_manager_ b) in
          let page := set_data buf page in
          let b := set_disk_manager d (set_page_at frame_id page b) in
          (Some frame_id, b)
      | (None, b) => (None, b)
      end
  end.

(** [UnpinPageImpl]. [pin_count_--] is guarded by [pin_count_ > 0] and so
    cannot leave the range of [int]. *)
Definition UnpinPageImpl (page_id : Z) (is_dirty : bool) (b : BufferPoolManager R)
  : bool * BufferPoolManager R :=
  match page_table_ b !! page_id with
  | Some f =>
      let page := page_at f b in
      let page := if 0 <? pin_count_ page
                  then set_pin_count (pin_count_ page - 1) page else page in
      let b := set_page_at f page b in
      if pin_count_ page =? 0 then
        let b := if is_dirty
                 then set_disk_manager
                        (WritePage (page_id_ page) (data_ page) (disk_manager_ b)) b
                 else b in
        let b := set_replacer (Unpin f (replacer_ b)) b in
        let b := set_page_table (delete page_id (page_table_ b)) b in
        (true, b)
      else (false, b)
  | None => (false, b)
  end.

(** [FlushPageImpl]. *)
Definition FlushPageImpl (page_id : Z) (b : BufferPoolManager R)
  : bool * BufferPoolManager R :=
  match page_table_ b !! page_id with
  | Some f =>
      let page := page_at f b in
      let b := set_disk_manager (WritePage page_id (data_ page) (disk_manager_ b)) b in
      let b := set_replacer (Unpin f (replacer_ b)) b in
      let b := set_page_table (delete page_id (page_table_ b)) b in
      (true, b)
  | None => (false, b)
  end.

(** [NewPageImpl]: the frame for the returned [Page*] and the identifier
    stored through [*page_id]; [None] for [nullptr]. *)
Definition NewPageImpl (b : BufferPoolManager R)
  : option (nat * Z) * BufferPoolManager R :=
  match GetVictimPage b with
  | (Some frame_id, b) =>
      let page := page_at frame_id b in
      let '(new_id, d) := AllocatePage (disk_manager_ b) in
      let b := set_disk_manager d b in
      let page := set_page_id new_id page in
      let page := set_pin_count 0 page in
      let page := ResetMemory page in
      let b := set_page_at frame_id page b in
      let b := set_page_table (<[page_id_ page := frame_id]> (page_table_ b)) b in
      (Some (frame_id, page_id_ page), b)
  | (None, b) => (None, b)
  end.

(** [DeletePageImpl]. The frame index pushed on the free list is
    [p_iterator->second], read after [page_table_.erase(p_iterator->first)]
    has destroyed the node the iterator points to: what the read of the
    freed node yields is not determined by the program. It is the argument
    [freed_read] of the model; [freed_read = f] is the read of a node whose
    storage is still intact. (A value outside [0 .. pool_size-1], whatever
    its sign, indexes outside [pages_]; the naturals from [pool_size] on
    stand for all of them.) *)
Definition DeletePageImpl (page_id : Z) (freed_read : nat) (b : BufferPoolManager R)
  : bool * BufferPoolManager R :=
  match page_table_ b !! page_id with
  | Some f =>
      let page := page_at f b in
      if 0 <? pin_count_ page then (false, b)
      else
        let b := set_page_table (delete page_id (page_table_ b)) b in
        let page := set_pin_count 0 page in
        let page := set_is_dirty false page in
        let page := set_page_id INVALID_PAGE_ID page in
        let b := set_page_at f page b in
        let b := set_free_list (free_list_ b ++ [freed_read]) b in
        (true, b)
  | None => (true, b)
  end.

(** One iteration of the loop of [FlushAllPagesImpl]. *)
Definition flush_entry (b : BufferPoolManager R) (p : Z * nat) : BufferPoolManager R :=
  let page := page_at p.2 b in
  let b := set_disk_manager (WritePage p.1 (data_ page) (disk_manager_ b)) b in
  set_replacer (Unpin p.2 (replacer_ b)) b.

(** [FlushAllPagesImpl]. An [unordered_map] is iterated in an unspecified
    order; the model takes the order of [map_to_list]. *)
Definition FlushAllPagesImpl (b : BufferPoolManager R) : BufferPoolManager R :=
  let b := foldl flush_entry b (map_to_list (page_table_ b)) in
  set_page_table ∅ b.

(** ** Sequences of calls on the public interface *)

(** A call with its arguments; a delete_page also carries what its read of
    the erased node yields. *)
Inductive Op :=
| OpFetch (page_id : Z)
| OpUnpin (page_id : Z) (is_dirty : bool)
| OpFlush (page_id : Z)
| OpNewPage
| OpDeletePage (page_id : Z) (freed_read : nat)
| OpFlushAll.

Definition step (b : BufferPoolManager R) (o : Op) : BufferPoolManager R :=
  match o with
  | OpFetch page_id => (FetchPageImpl page_id b).2
  | OpUnpin page_id is_dirty => (UnpinPageImpl page_id is_dirty b).2
  | OpFlush page_id => (FlushPageImpl page_id b).2
  | OpNewPage => (NewPageImpl b).2
  | OpDeletePage page_id freed_read => (DeletePageImpl page_id freed_read b).2
  | OpFlushAll => FlushAllPagesImpl b
  end.

Definition run (ops : list Op) (b : BufferPoolManager R) : BufferPoolManager R :=
  foldl step b ops.

(** The read of a delete_page is intact when it yields the frame of the
    entry the call looked up. *)
Definition intact_read (b : BufferPoolManager R) (o : Op) : bool :=
  match o with
  | OpDeletePage page_id freed_read =>
      match page_table_ b !! page_id with
      | Some f => bool_decide (freed_read = f)
      | None => true
      end
  | _ => true
  end.

(** A sequence of calls, from the pool [b] on, in which every delete_page
    reads an intact node. *)
Fixpoint intact_reads (ops : list Op) (b : BufferPoolManager R) : bool :=
  match ops with
  | [] => true
  | o :: ops => intact_read b o && intact_reads ops (step b o)
  end.

End Pool.

(** ** The invariant of the pool's book-keeping *)

Section Invariants.
Context `{PageConfig} {R : Type} `{!Replacer R}.
Implicit Types b : BufferPoolManager R.

(** The frames the page table maps some identifier to. *)
Definition frames_of (pt : gmap Z nat) : gset nat := map_img pt.
Definition resident_frames b : gset nat := frames_of (page_table_ b).

(** No two identifiers share a frame. *)
Definition table_inj (pt : gmap Z nat) : Prop :=
  ∀ i j f, pt !! i = Some f → pt !! j = Some f → i = j.

(** Free list, replacer candidates and page-table values are pairwise
    disjoint sets of indices into [pages_]. *)
Record pool_inv b : Prop := {
  inv_table_inj : table_inj (page_table_ b);
  inv_length : length (pages_ b) = pool_size_ b;
  inv_free_NoDup : NoDup (free_list_ b);
  inv_free_range : ∀ f, f ∈ free_list_ b → (f < pool_size_ b)%nat;
  inv_resident_range : ∀ f, f ∈ resident_frames b → (f < pool_size_ b)%nat;
  inv_evictable_range : ∀ f, f ∈ evictable (replacer_ b) → (f < pool_size_ b)%nat;
  inv_free_resident : ∀ f, f ∈ free_list_ b → f ∉ resident_frames b;
  inv_free_evictable : ∀ f, f ∈ free_list_ b → f ∉ evictable (replacer_ b);
  inv_evictable_resident : ∀ f, f ∈ evictable (replacer_ b) → f ∉ resident_frames b
}.

Lemma frames_of_lookup (pt : gmap Z nat) page_id f :
  pt !! page_id = Some f → f ∈ frames_of pt.
Proof. apply elem_of_map_img_2. Qed.

Lemma frames_of_delete (pt : gmap Z nat) page_id f :
  f ∈ frames_of (delete page_id pt) → f ∈ frames_of pt.
Proof. apply map_img_delete_subseteq. Qed.

Lemma frames_of_insert (pt : gmap Z nat) page_id f g :
  g ∈ frames_of (<[page_id := f]> pt) → g = f ∨ g ∈ frames_of pt.
Proof.
  intros Hg. apply (map_img_insert_subseteq (SA:=gset nat)) in Hg.
  apply elem_of_union in Hg as [Hg|Hg]; [left|right; done].
  by apply elem_of_singleton in Hg.
Qed.

Lemma table_inj_empty : table_inj ∅.
Proof. intros i j f Hi. by rewrite lookup_empty in Hi. Qed.

Lemma table_inj_delete pt page_id : table_inj pt → table_inj (delete page_id pt).
Proof.
  intros Hinj i j f Hi Hj. apply lookup_delete_Some in Hi as [_ Hi].
  apply lookup_delete_Some in Hj as [_ Hj]. eauto.
Qed.

Lemma table_inj_insert pt page_id f :
  f ∉ frames_of pt → table_inj pt → table_inj (<[page_id := f]> pt).
Proof.
  intros Hf Hinj i j g Hi Hj.
  apply lookup_insert_Some in Hi as [[-> <-]|[Hne Hi]];
    apply lookup_insert_Some in Hj as [[-> Hj]|[Hne' Hj]]; subst; eauto.
  - exfalso. apply Hf. by eapply frames_of_lookup.
  - exfalso. apply Hf. by eapply frames_of_lookup.
Qed.

Lemma frames_of_erased pt page_id f :
  table_inj pt → pt !! page_id = Some f → f ∉ frames_of (delete page_id pt).
Proof.
  intros Hinj Hlk Hin. apply elem_of_map_img in Hin as [j Hj].
  apply lookup_delete_Some in Hj as [Hne Hj]. apply Hne. eauto.
Qed.

Lemma frames_of_empty f : f ∉ frames_of ∅.
Proof. unfold frames_of. rewrite map_img_empty_L. apply not_elem_of_empty. Qed.

(** What [GetVictimPage] does to the pool when it finds a frame. *)
Lemma GetVictimPage_Some b f b' :
  GetVictimPage b = (Some f, b') →
  pool_size_ b' = pool_size_ b ∧ pages_ b' = pages_ b ∧
  page_table_ b' = page_table_ b ∧ disk_manager_ b' = disk_manager_ b ∧
  ((free_list_ b = f :: free_list_ b' ∧ replacer_ b' = replacer_ b) ∨
   (free_list_ b = [] ∧ free_list_ b' = [] ∧ f ∈ evictable (replacer_ b) ∧
    evictable (replacer_ b') = evictable (replacer_ b) ∖ {[f]})).
Proof.
  unfold GetVictimPage. destruct (free_list_ b) as [|g rest] eqn:Hfl.
  - destruct (Victim (replacer_ b)) as [[g|] r] eqn:Hv; intros [= <- <-]; simpl.
    apply Victim_Some in Hv as [Hin Hev]. repeat split; try done.
    right. done.
  - intros [= <- <-]. simpl. repeat split; try done. left. done.
Qed.

Lemma GetVictimPage_None b b' :
  GetVictimPage b = (None, b') →
  pool_size_ b' = pool_size_ b ∧ pages_ b' = pages_ b ∧
  page_table_ b' = page_table_ b ∧ disk_manager_ b' = disk_manager_ b ∧
  free_list_ b = [] ∧ free_list_ b' = [] ∧
  evictable (replacer_ b) = ∅ ∧ evictable (replacer_ b') = ∅.
Proof.
  unfold GetVictimPage. destruct (free_list_ b) as [|g rest] eqn:Hfl.
  - destruct (Victim (replacer_ b)) as [[g|] r] eqn:Hv; intros [= <-]; simpl.
    apply Victim_None in Hv as [Hin Hev]. repeat split; done.
  - intros [=].
Qed.

Lemma GetVictimPage_inv b f b' :
  pool_inv b → GetVictimPage b = (Some f, b') →
  pool_inv b' ∧ (f < pool_size_ b')%nat ∧ (f ∉ free_list_ b') ∧
  (f ∉ evictable (replacer_ b')) ∧ (f ∉ resident_frames b').
Proof.
  intros [Hinj Hlen Hnd Hfr Hrr Her Hfp Hfe Hep] Hv.
  apply GetVictimPage_Some in Hv as (Hn & Hp & Ht & Hd & Hcase).
  unfold resident_frames in *.
  destruct Hcase as [[Hfl Hr]|(Hfl & Hfl' & Hin & Hev)].
  - rewrite Hfl in Hnd, Hfr, Hfp, Hfe. apply NoDup_cons in Hnd as [Hnin Hnd].
    split; [split|]; unfold resident_frames; rewrite ?Hn, ?Hp, ?Ht, ?Hr;
      try done; set_solver.
  - split; [split|]; unfold resident_frames; rewrite ?Hn, ?Hp, ?Ht, ?Hfl', ?Hev;
      try done; try apply NoDup_nil_2; set_solver.
Qed.

Lemma GetVictimPage_None_inv b b' :
  pool_inv b → GetVictimPage b = (None, b') → pool_inv b'.
Proof.
  intros [Hinj Hlen Hnd Hfr Hrr Her Hfp Hfe Hep] Hv.
  apply GetVictimPage_None in Hv as (Hn & Hp & Ht & Hd & Hfl & Hfl' & Hev & Hev').
  unfold resident_frames in *.
  split; unfold resident_frames; rewrite ?Hn, ?Hp, ?Ht, ?Hfl', ?Hev'; try done;
    try apply NoDup_nil_2; set_solver.
Qed.

Lemma pool_inv_new n d : pool_inv (BufferPoolManager_new n d).
Proof.
  split; simpl; unfold resident_frames; simpl.
  - apply table_inj_empty.
  - apply length_replicate.
  - apply NoDup_seq.
  - intros f Hf. apply elem_of_seq in Hf. lia.
  - intros f Hf. by apply frames_of_empty in Hf.
  - intros f. rewrite evictable_new. set_solver.
  - intros f _. apply frames_of_empty.
  - intros f _. rewrite evictable_new. set_solver.
  - intros f. rewrite evictable_new. set_solver.
Qed.

(** Closing one field of [pool_inv] after an operation: the page table
    was changed by erasures and insertions of the frame at hand. *)
Ltac frames_hyps :=
  repeat match goal with
  | H : _ ∈ frames_of (<[_ := _]> _) |- _ => apply frames_of_insert in H as [->|H]
  | H : _ ∈ frames_of (delete _ _) |- _ => apply frames_of_delete in H
  | H : _ ∈ frames_of ∅ |- _ => by apply frames_of_empty in H
  | H : _ !! _ = Some _ |- _ => apply frames_of_lookup in H
  end.

Ltac frames_solver :=
  try match goal with
  | Hi : table_inj ?pt, H : ?pt !! ?i = Some ?f |- _ =>
      pose proof (frames_of_erased pt i f Hi H)
  end;
  lazymatch goal with
  | |- NoDup (_ ++ [_]) =>
      apply NoDup_app; split; [done|split; [|apply NoDup_singleton]];
      let g := fresh "g" in
      intros g ? ->%list_elem_of_singleton; frames_hyps; set_solver
  | |- table_inj _ =>
      repeat first [ assumption | apply table_inj_empty
                   | apply table_inj_delete | apply table_inj_insert ];
      try (intros ?; frames_hyps; set_solver)
  | |- _ =>
      let g := fresh "g" in
      intros g; repeat (let Hg := fresh "Hg" in intros Hg);
      try match goal with
      | Hn : ?f ∉ frames_of (delete _ _) |- _ =>
          destruct (decide (g = f)) as [->|?]; [try (by destruct Hn)|]
      end;
      frames_hyps; set_solver
  end.

Lemma FetchPageImpl_inv page_id b :
  pool_inv b → pool_inv (FetchPageImpl page_id b).2.
Proof.
  intros Hinv. unfold FetchPageImpl.
  destruct (page_table_ b !! page_id) as [f|] eqn:Hlk.
  - destruct Hinv as [Hinj Hlen Hnd Hfr Hrr Her Hfp Hfe Hep].
    unfold resident_frames in *.
    split; simpl; unfold resident_frames; simpl;
      rewrite ?length_insert, ?evictable_Pin; try done;
      frames_solver.
  - destruct (GetVictimPage b) as [[f|] b1] eqn:Hv.
    + apply GetVictimPage_inv in Hv as (Hinv1 & Hlt & Hnf & Hne & Hnr); [|done].
      destruct Hinv1 as [Hinj Hlen Hnd Hfr Hrr Her Hfp Hfe Hep].
      unfold resident_frames in *.
      destruct (is_dirty_ (page_at f b1));
      (split; simpl; unfold resident_frames; simpl;
        rewrite ?length_insert; try done;
        frames_solver).
    + simpl. by eapply GetVictimPage_None_inv.
Qed.

Lemma UnpinPageImpl_inv page_id is_dirty b :
  pool_inv b → pool_inv (UnpinPageImpl page_id is_dirty b).2.
Proof.
  intros Hinv. unfold UnpinPageImpl.
  destruct (page_table_ b !! page_id) as [f|] eqn:Hlk; [|done].
  destruct Hinv as [Hinj Hlen Hnd Hfr Hrr Her Hfp Hfe Hep].
  unfold resident_frames in *.
  repeat case_match;
    (split; simpl; unfold resident_frames; simpl;
      rewrite ?length_insert, ?evictable_Unpin; try done;
      frames_solver).
Qed.

Lemma FlushPageImpl_inv page_id b :
  pool_inv b → pool_inv (FlushPageImpl page_id b).2.
Proof.
  intros Hinv. unfold FlushPageImpl.
  destruct (page_table_ b !! page_id) as [f|] eqn:Hlk; [|done].
  destruct Hinv as [Hinj Hlen Hnd Hfr Hrr Her Hfp Hfe Hep].
  unfold resident_frames in *.
  split; simpl; unfold resident_frames; simpl;
    rewrite ?evictable_Unpin; try done;
    frames_solver.
Qed.

Lemma NewPageImpl_inv b : pool_inv b → pool_inv (NewPageImpl b).2.
Proof.
  intros Hinv. unfold NewPageImpl.
  destruct (GetVictimPage b) as [[f|] b1] eqn:Hv.
  - apply GetVictimPage_inv in Hv as (Hinv1 & Hlt & Hnf & Hne & Hnr); [|done].
    destruct Hinv1 as [Hinj Hlen Hnd Hfr Hrr Her Hfp Hfe Hep].
    unfold resident_frames in *.
    split; simpl; unfold resident_frames; simpl;
      rewrite ?length_insert; try done; frames_solver.
  - simpl. by eapply GetVictimPage_None_inv.
Qed.

Lemma DeletePageImpl_inv page_id freed_read b :
  pool_inv b → intact_read b (OpDeletePage page_id freed_read) = true →
  pool_inv (DeletePageImpl page_id freed_read b).2.
Proof.
  intros Hinv Hread. unfold DeletePageImpl. simpl in Hread.
  destruct (page_table_ b !! page_id) as [f|] eqn:Hlk; [|done].
  apply bool_decide_eq_true in Hread as ->.
  case_match; [done|].
  destruct Hinv as [Hinj Hlen Hnd Hfr Hrr Her Hfp Hfe Hep].
  unfold resident_frames in *.
  split; simpl; unfold resident_frames; simpl;
    rewrite ?length_insert; try done; frames_solver.
Qed.

Lemma foldl_flush_entry l b :
  let b' := foldl flush_entry b l in
  pool_size_ b' = pool_size_ b ∧ pages_ b' = pages_ b ∧
  page_table_ b' = page_table_ b ∧ free_list_ b' = free_list_ b ∧
  evictable (replacer_ b') = list_to_set l.*2 ∪ evictable (replacer_ b).
Proof.
  revert b. induction l as [|[page_id f] l IH]; intros b; simpl.
  - repeat split; try done. set_solver.
  - destruct (IH (flush_entry b (page_id, f))) as (Hn & Hp & Ht & Hf & He).
    rewrite Hn, Hp, Ht, Hf, He. simpl. repeat split; try done.
    rewrite evictable_Unpin. set_solver.
Qed.

Lemma FlushAllPagesImpl_inv b : pool_inv b → pool_inv (FlushAllPagesImpl b).
Proof.
  intros [Hinj Hlen Hnd Hfr Hrr Her Hfp Hfe Hep]. unfold FlushAllPagesImpl.
  destruct (foldl_flush_entry (map_to_list (page_table_ b)) b)
    as (Hn & Hp & Ht & Hf & He).
  unfold resident_frames in *. unfold frames_of in Hrr, Hfp, Hep.
  rewrite map_img_alt_L in Hrr, Hfp, Hep.
  split; simpl; unfold resident_frames; simpl; rewrite ?Hn, ?Hp, ?Hf, ?He;
    try done; frames_solver.
Qed.

Lemma step_inv b o : pool_inv b → intact_read b o = true → pool_inv (step b o).
Proof.
  destruct o; simpl; auto using FetchPageImpl_inv, UnpinPageImpl_inv,
    FlushPageImpl_inv, NewPageImpl_inv, FlushAllPagesImpl_inv.
  intros Hinv Hread. by apply DeletePageImpl_inv.
Qed.

Lemma run_inv ops b : pool_inv b → intact_reads ops b = true → pool_inv (run ops b).
Proof.
  revert b. induction ops as [|o ops IH]; intros b Hb Hreads; simpl; [done|].
  simpl in Hreads. apply andb_true_iff in Hreads as [Hread Hreads].
  apply IH; [by apply step_inv|done].
Qed.

(** A sequence without delete_page has no read of an erased node. *)
Definition no_delete (o : Op) : Prop :=
  match o with OpDeletePage _ _ => False | _ => True end.

Lemma no_delete_intact ops b : Forall no_delete ops → intact_reads ops b = true.
Proof.
  intros Hops. revert b. induction Hops as [|o ops Ho _ IH]; intros b; [done|].
  simpl. rewrite IH, andb_true_r. by destruct o.
Qed.

Lemma intact_reads_app ops1 ops2 b :
  intact_reads (ops1 ++ ops2) b = intact_reads ops1 b && intact_reads ops2 (run ops1 b).
Proof.
  revert b. induction ops1 as [|o ops1 IH]; intros b; simpl; [done|].
  by rewrite IH, andb_assoc.
Qed.

End Invariants.

(** ** How the operations change the frames *)

Section Frames.
Context `{PageConfig} {R : Type} `{!Replacer R}.
Implicit Types b : BufferPoolManager R.

(** How one call changes the frames: a frame is left alone, gains a pin
    (an [int] increment), loses one it had, or is given new contents and
    identifier with a pin count of 1 or 0 and its old dirty flag, or with the
    flag cleared. *)
Inductive frame_step : Page → Page → Prop :=
| frame_same p : frame_step p p
| frame_pin p : frame_step p (set_pin_count (int_wrap (pin_count_ p + 1)) p)
| frame_unpin p : 0 < pin_count_ p → frame_step p (set_pin_count (pin_count_ p - 1) p)
| frame_reuse p buf page_id c :
    c = 0 ∨ c = 1 → frame_step p (mkPage buf page_id c (is_dirty_ p))
| frame_delete p buf page_id : frame_step p (mkPage buf page_id 0 false).

Lemma Forall2_frame_step_refl (ps : list Page) : Forall2 frame_step ps ps.
Proof. induction ps; constructor; auto using frame_same. Qed.

Lemma Forall2_frame_step_insert (ps : list Page) f p :
  (∀ q, ps !! f = Some q → frame_step q p) → Forall2 frame_step ps (<[f := p]> ps).
Proof.
  revert f. induction ps as [|q ps IH]; intros f Hq; [constructor|].
  destruct f as [|f]; simpl.
  - constructor; [by apply Hq|apply Forall2_frame_step_refl].
  - constructor; [apply frame_same|]. apply IH. intros q' Hq'. by apply Hq.
Qed.

Lemma foldl_flush_entry_pages l b : pages_ (foldl flush_entry b l) = pages_ b.
Proof. apply (foldl_flush_entry l b). Qed.

Lemma step_frames b o : Forall2 frame_step (pages_ b) (pages_ (step b o)).
Proof.
  destruct o as [page_id|page_id is_dirty|page_id| |page_id|]; simpl.
  - unfold FetchPageImpl. destruct (page_table_ b !! page_id) as [f|].
    + simpl. apply Forall2_frame_step_insert. intros q Hq.
      unfold page_at. simpl. rewrite (list_lookup_total_correct _ _ _ Hq).
      apply frame_pin.
    + destruct (GetVictimPage b) as [[f|] b1] eqn:Hv.
      * apply GetVictimPage_Some in Hv as (_ & Hp & _).
        destruct (is_dirty_ (page_at f b1)) eqn:Hd; simpl; rewrite ?Hd; simpl;
          rewrite <-Hp; apply Forall2_frame_step_insert; intros q Hq;
          unfold page_at; rewrite (list_lookup_total_correct _ _ _ Hq);
          apply (frame_reuse q _ _ 1); by right.
      * apply GetVictimPage_None in Hv as (_ & Hp & _). simpl. rewrite Hp.
        apply Forall2_frame_step_refl.
  - unfold UnpinPageImpl. destruct (page_table_ b !! page_id) as [f|];
      [|apply Forall2_frame_step_refl].
    assert (Forall2 frame_step (pages_ b)
      (<[f := if 0 <? pin_count_ (page_at f b)
              then set_pin_count (pin_count_ (page_at f b) - 1) (page_at f b)
              else page_at f b]> (pages_ b))) as Hstep.
    { apply Forall2_frame_step_insert. intros q Hq.
      unfold page_at. rewrite (list_lookup_total_correct _ _ _ Hq).
      destruct (Z.ltb_spec 0 (pin_count_ q)); [by apply frame_unpin|apply frame_same]. }
    repeat case_match; simpl; exact Hstep.
  - unfold FlushPageImpl. destruct (page_table_ b !! page_id) as [f|]; simpl;
      apply Forall2_frame_step_refl.
  - unfold NewPageImpl. destruct (GetVictimPage b) as [[f|] b1] eqn:Hv.
    + apply GetVictimPage_Some in Hv as (_ & Hp & _). simpl. rewrite <-Hp.
      apply Forall2_frame_step_insert. intros q Hq.
      unfold page_at. rewrite (list_lookup_total_correct _ _ _ Hq).
      apply (frame_reuse q _ _ 0). by left.
    + apply GetVictimPage_None in Hv as (_ & Hp & _). simpl. rewrite Hp.
      apply Forall2_frame_step_refl.
  - unfold DeletePageImpl. destruct (page_table_ b !! page_id) as [f|];
      [|apply Forall2_frame_step_refl].
    case_match; simpl; [apply Forall2_frame_step_refl|].
    apply Forall2_frame_step_insert. intros q Hq. apply frame_delete.
  - unfold FlushAllPagesImpl. simpl. rewrite foldl_flush_entry_pages.
    apply Forall2_frame_step_refl.
Qed.

(** No operation raises a dirty flag. *)
Lemma frame_step_clean p q : frame_step p q → is_dirty_ p = false → is_dirty_ q = false.
Proof. by destruct 1. Qed.

(** Below [INT_MAX] one call moves a pin count by one at most and never
    below zero. *)
Lemma frame_step_pin_count p q (k : Z) :
  frame_step p q → k < INT_MAX → 0 ≤ pin_count_ p ≤ k → 0 ≤ pin_count_ q ≤ k + 1.
Proof.
  unfold INT_MAX. destruct 1; simpl; intros Hk Hp; try lia.
  rewrite int_wrap_in_range; unfold INT_MIN, INT_MAX; lia.
Qed.

(** In a pool built through the public interface no frame is dirty. *)
Lemma reachable_frames_clean n d ops :
  Forall (λ p, is_dirty_ p = false) (pages_ (run ops (BufferPoolManager_new n d))).
Proof.
  induction ops as [|o ops IH] using rev_ind; simpl.
  - apply Forall_replicate. done.
  - unfold run in *. rewrite foldl_snoc.
    eapply Forall2_Forall_r; [apply step_frames|].
    eapply Forall_impl; [exact IH|]. intros p Hp q Hq. by eapply frame_step_clean.
Qed.

(** After [k] calls, [k] at most [INT_MAX], no pin count is outside
    [0 .. k]: on a sequence of fewer than 2^31 calls no increment wraps. *)
Lemma reachable_pin_count_range n d ops :
  Z.of_nat (length ops) ≤ INT_MAX →
  Forall (λ p, 0 ≤ pin_count_ p ≤ Z.of_nat (length ops))
         (pages_ (run ops (BufferPoolManager_new n d))).
Proof.
  induction ops as [|o ops IH] using rev_ind; intros Hlen.
  - apply Forall_replicate. done.
  - unfold run in *. rewrite foldl_snoc. rewrite length_app in *. simpl in *.
    eapply Forall2_Forall_r; [apply step_frames|].
    eapply Forall_impl; [apply IH; lia|]. intros p Hp q Hq.
    apply (frame_step_pin_count _ _ _ Hq) in Hp; lia.
Qed.

End Frames.

(** ** Pin counts and victims *)

Section Pins.
Context `{PageConfig} {R : Type} `{!Replacer R}.
Implicit Types b : BufferPoolManager R.

(** A frame in the free list or offered by the replacer has a pin count of
    zero. *)
Record pin_inv b : Prop := {
  pin_free : ∀ f p, f ∈ free_list_ b → pages_ b !! f = Some p → pin_count_ p = 0;
  pin_evictable :
    ∀ f p, f ∈ evictable (replacer_ b) → pages_ b !! f = Some p → pin_count_ p = 0
}.

(** The calls of the sequences considered for pin counts: fetch, unpin and
    new_page. (A flush hands a frame to the replacer whatever its pin
    count.) *)
Definition pin_op (o : Op) : Prop :=
  match o with
  | OpFetch _ | OpUnpin _ _ | OpNewPage => True
  | OpFlush _ | OpDeletePage _ _ | OpFlushAll => False
  end.

Lemma pin_op_intact ops b : Forall pin_op ops → intact_reads ops b = true.
Proof.
  intros Hops. apply no_delete_intact. eapply Forall_impl; [exact Hops|].
  by intros [].
Qed.

Lemma page_at_lookup b f p : pages_ b !! f = Some p → page_at f b = p.
Proof. intros Hp. unfold page_at. by apply list_lookup_total_correct. Qed.

Lemma pin_inv_new n d : pin_inv (BufferPoolManager_new n d).
Proof.
  split; simpl; intros f p; rewrite ?lookup_replicate.
  - intros _ [-> _]. done.
  - intros _ [-> _]. done.
Qed.

Lemma GetVictimPage_pin_inv b f b' :
  pin_inv b → GetVictimPage b = (Some f, b') → pin_inv b'.
Proof.
  intros [Hfree Hev] Hv.
  apply GetVictimPage_Some in Hv as (Hn & Hp & Ht & Hd & Hcase).
  destruct Hcase as [[Hfl Hr]|(Hfl & Hfl' & Hin & He)].
  - rewrite Hfl in Hfree. split; rewrite ?Hp, ?Hr; eauto.
    intros g p Hg. apply Hfree. by right.
  - split; rewrite ?Hp, ?Hfl', ?He; eauto.
    + intros g p Hg. by apply elem_of_nil in Hg.
    + intros g p Hg. apply Hev. set_solver.
Qed.

(** The frame [GetVictimPage] hands out is an unpinned frame of the array. *)
Lemma GetVictimPage_unpinned b f b' :
  pool_inv b → pin_inv b → GetVictimPage b = (Some f, b') →
  ∃ p, pages_ b !! f = Some p ∧ pin_count_ p = 0.
Proof.
  intros Hinv [Hfree Hev] Hv.
  apply GetVictimPage_Some in Hv as (Hn & Hp & Ht & Hd & Hcase).
  assert (f < length (pages_ b))%nat as Hlt.
  { rewrite (inv_length _ Hinv).
    destruct Hcase as [[Hfl Hr]|(Hfl & Hfl' & Hin & He)].
    - apply (inv_free_range _ Hinv). rewrite Hfl. left.
    - by apply (inv_evictable_range _ Hinv). }
  apply lookup_lt_is_Some_2 in Hlt as [p Hp']. exists p. split; [done|].
  destruct Hcase as [[Hfl Hr]|(Hfl & Hfl' & Hin & He)].
  - apply (Hfree f); [|done]. rewrite Hfl. left.
  - by apply (Hev f).
Qed.

Lemma FetchPageImpl_pin_inv page_id b :
  pool_inv b → pin_inv b → pin_inv (FetchPageImpl page_id b).2.
Proof.
  intros Hinv Hpin. unfold FetchPageImpl.
  destruct (page_table_ b !! page_id) as [f|] eqn:Hlk.
  - destruct Hpin as [Hfree Hev]. apply frames_of_lookup in Hlk.
    split; simpl; intros g p; rewrite ?evictable_Pin.
    + intros Hg [(-> & <- & Hlt)|[Hne Hp]]%list_lookup_insert_Some; [|by eauto].
      by destruct (inv_free_resident _ Hinv _ Hg).
    + intros [Hg Hne]%elem_of_difference.
      intros [(-> & <- & Hlt)|[_ Hp]]%list_lookup_insert_Some; [|by eauto].
      set_solver.
  - destruct (GetVictimPage b) as [[f|] b1] eqn:Hv; simpl.
    + pose proof (GetVictimPage_pin_inv _ _ _ Hpin Hv) as [Hfree Hev].
      apply GetVictimPage_inv in Hv as (Hinv1 & Hlt & Hnf & Hne & Hnr); [|done].
      destruct (is_dirty_ (page_at f b1));
        (split; simpl; intros g p;
         [ intros Hg [(-> & <- & _)|[_ Hp]]%list_lookup_insert_Some; [done|by eauto]
         | intros Hg [(-> & <- & _)|[_ Hp]]%list_lookup_insert_Some; [done|by eauto] ]).
    + apply GetVictimPage_None in Hv as (Hn & Hp & Ht & Hd & Hfl & Hfl' & He & He').
      destruct Hpin as [Hfree Hev].
      split; rewrite ?Hp, ?Hfl', ?He'; eauto.
      * intros g p Hg. by apply elem_of_nil in Hg.
      * intros g p Hg. set_solver.
Qed.

Lemma UnpinPageImpl_pin_inv page_id is_dirty b :
  pool_inv b → pin_inv b → pin_inv (UnpinPageImpl page_id is_dirty b).2.
Proof.
  intros Hinv [Hfree Hev]. unfold UnpinPageImpl.
  destruct (page_table_ b !! page_id) as [f|] eqn:Hlk; [|by split].
  apply frames_of_lookup in Hlk.
  assert (f < length (pages_ b))%nat as Hlt.
  { rewrite (inv_length _ Hinv). by apply (inv_resident_range _ Hinv). }
  apply lookup_lt_is_Some_2 in Hlt as [p0 Hp0].
  rewrite (page_at_lookup _ _ _ Hp0).
  set (page := if 0 <? pin_count_ p0 then _ else _).
  destruct (Z.eqb_spec (pin_count_ page) 0) as [Hz|Hnz].
  - destruct is_dirty;
      (split; simpl; intros g p; rewrite ?evictable_Unpin;
       [ intros Hg [(-> & <- & _)|[_ Hp]]%list_lookup_insert_Some; [done|by eauto]
       | intros Hg [(-> & <- & _)|[Hne Hp]]%list_lookup_insert_Some; [done|];
         apply (Hev g); [set_solver|done] ]).
  - split; simpl; intros g p.
    + intros Hg [(-> & <- & _)|[_ Hp]]%list_lookup_insert_Some; [|by eauto].
      by destruct (inv_free_resident _ Hinv _ Hg).
    + intros Hg [(-> & <- & _)|[_ Hp]]%list_lookup_insert_Some; [|by eauto].
      by destruct (inv_evictable_resident _ Hinv _ Hg).
Qed.

Lemma NewPageImpl_pin_inv b : pool_inv b → pin_inv b → pin_inv (NewPageImpl b).2.
Proof.
  intros Hinv Hpin. unfold NewPageImpl.
  destruct (GetVictimPage b) as [[f|] b1] eqn:Hv; simpl.
  - pose proof (GetVictimPage_pin_inv _ _ _ Hpin Hv) as [Hfree Hev].
    split; simpl; intros g p.
    + intros Hg [(-> & <- & _)|[_ Hp]]%list_lookup_insert_Some; [done|by eauto].
    + intros Hg [(-> & <- & _)|[_ Hp]]%list_lookup_insert_Some; [done|by eauto].
  - apply GetVictimPage_None in Hv as (Hn & Hp & Ht & Hd & Hfl & Hfl' & He & He').
    destruct Hpin as [Hfree Hev].
    split; rewrite ?Hp, ?Hfl', ?He'; eauto.
    + intros g p Hg. by apply elem_of_nil in Hg.
    + intros g p Hg. set_solver.
Qed.

Lemma run_pin_inv ops b :
  Forall pin_op ops → pool_inv b → pin_inv b → pool_inv (run ops b) ∧ pin_inv (run ops b).
Proof.
  intros Hops. revert b. induction Hops as [|o ops Ho _ IH]; intros b Hinv Hpin; [done|].
  simpl. apply IH; [apply step_inv; [done|by destruct o]|].
  destruct o; simpl in *; try done;
    auto using FetchPageImpl_pin_inv, UnpinPageImpl_pin_inv, NewPageImpl_pin_inv.
Qed.

End Pins.

(** ** What one call does *)

Section Calls.
Context `{PageConfig} {R : Type} `{!Replacer R}.
Implicit Types b : BufferPoolManager R.


(** The disk calls made between two pools, the later one reached from the
    earlier one: the log only grows at its end. *)
Definition issued b b' : list DiskCall :=
  drop (length (calls (disk_manager_ b))) (calls (disk_manager_ b')).

(** The identifiers read by a list of calls. *)
Definition reads (cs : list DiskCall) : list Z :=
  omap (λ c, match c with CallRead i => Some i | _ => None end) cs.

Lemma issued_app b b' cs :
  calls (disk_manager_ b') = calls (disk_manager_ b) ++ cs → issued b b' = cs.
Proof. intros Hc. unfold issued. rewrite Hc. apply drop_app_length. Qed.

Lemma issued_same b b' : disk_manager_ b' = disk_manager_ b → issued b b' = [].
Proof. intros Hd. apply issued_app. rewrite Hd. by rewrite app_nil_r. Qed.

Lemma FetchPageImpl_hit page_id b f :
  page_table_ b !! page_id = Some f →
  FetchPageImpl page_id b =
    (Some f,
     set_page_at f
       (set_pin_count (int_wrap (pin_count_ (page_at f b) + 1)) (page_at f b))
       (set_replacer (Pin f (replacer_ b)) b)).
Proof. intros Hlk. unfold FetchPageImpl. by rewrite Hlk. Qed.

Lemma FetchPageImpl_exhausted page_id b b1 :
  page_table_ b !! page_id = None → GetVictimPage b = (None, b1) →
  FetchPageImpl page_id b = (None, b1).
Proof. intros Hlk Hv. unfold FetchPageImpl. by rewrite Hlk, Hv. Qed.

(** A miss that finds a frame [f]: the frame's old identifier is erased from
    the page table and the new one inserted; the frame gets the identifier,
    one pin and the stored contents, and keeps its dirty flag; the disk sees
    the write of a dirty frame under its old identifier, then the read. *)
Lemma FetchPageImpl_miss page_id b f b1 :
  page_table_ b !! page_id = None → GetVictimPage b = (Some f, b1) →
  ∃ b', FetchPageImpl page_id b = (Some f, b') ∧
    let old := page_at f b in
    let written :=
      if is_dirty_ old then [CallWrite (page_id_ old) (data_ old)] else [] in
    pool_size_ b' = pool_size_ b ∧
    free_list_ b' = free_list_ b1 ∧ replacer_ b' = replacer_ b1 ∧
    page_table_ b' = <[page_id := f]> (delete (page_id_ old) (page_table_ b)) ∧
    pages_ b' =
      <[f := mkPage (default zero_buffer (stored (disk_manager_ b') !! page_id))
                    page_id 1 (is_dirty_ old)]> (pages_ b) ∧
    calls (disk_manager_ b') =
      calls (disk_manager_ b) ++ written ++ [CallRead page_id] ∧
    (is_dirty_ old = true →
     stored (disk_manager_ b') = <[page_id_ old := data_ old]> (stored (disk_manager_ b))) ∧
    (is_dirty_ old = false → stored (disk_manager_ b') = stored (disk_manager_ b)).
Proof.
  intros Hlk Hv. unfold FetchPageImpl. rewrite Hlk, Hv.
  apply GetVictimPage_Some in Hv as (Hn & Hp & Ht & Hd & _).
  eexists. split; [reflexivity|].
  unfold page_at. rewrite Hp.
  destruct (is_dirty_ (pages_ b !!! f)) eqn:Hdirty; simpl;
    rewrite ?Hn, ?Hp, ?Ht, ?Hd, ?Hdirty; simpl;
    rewrite <-?app_assoc; repeat split; try done.
  all: unfold set_data, set_pin_count, set_page_id, ResetMemory; simpl.
  all: by rewrite Hdirty.
Qed.

Lemma FetchPageImpl_Some_miss page_id b f b' :
  page_table_ b !! page_id = None → FetchPageImpl page_id b = (Some f, b') →
  ∃ b1, GetVictimPage b = (Some f, b1).
Proof.
  intros Hlk. unfold FetchPageImpl. rewrite Hlk.
  destruct (GetVictimPage b) as [[g|] b1]; [|done].
  destruct (ReadPage _ _). intros [= -> _]. by eexists.
Qed.

Lemma NewPageImpl_Some b f new_id b' :
  NewPageImpl b = (Some (f, new_id), b') → ∃ b1, GetVictimPage b = (Some f, b1).
Proof.
  unfold NewPageImpl. destruct (GetVictimPage b) as [[g|] b1]; [|done].
  simpl. intros [= -> _ _]. by eexists.
Qed.

(** [DeletePageImpl] makes no call on the disk manager. *)
Lemma DeletePageImpl_disk page_id freed_read b :
  disk_manager_ (DeletePageImpl page_id freed_read b).2 = disk_manager_ b.
Proof. unfold DeletePageImpl. by repeat case_match. Qed.

(** [DeletePageImpl] on a resident page without pins: the entry is erased,
    the frame reset to the sentinel identifier, and what the read of the
    erased node yields is put at the back of the free list. *)
Lemma DeletePageImpl_unpinned page_id freed_read b f p :
  page_table_ b !! page_id = Some f → pages_ b !! f = Some p → pin_count_ p ≤ 0 →
  (DeletePageImpl page_id freed_read b).1 = true ∧
  pages_ (DeletePageImpl page_id freed_read b).2 !! f
    = Some (mkPage (data_ p) INVALID_PAGE_ID 0 false) ∧
  page_table_ (DeletePageImpl page_id freed_read b).2 = delete page_id (page_table_ b) ∧
  free_list_ (DeletePageImpl page_id freed_read b).2 = free_list_ b ++ [freed_read].
Proof.
  intros Hlk Hp Hpin. unfold DeletePageImpl. rewrite Hlk.
  rewrite (page_at_lookup _ _ _ Hp).
  destruct (Z.ltb_spec 0 (pin_count_ p)); [lia|]. simpl.
  repeat split; try done. apply list_lookup_insert_eq. by eapply lookup_lt_Some.
Qed.

(** [UnpinPageImpl] never changes a dirty flag. *)
Lemma UnpinPageImpl_is_dirty page_id is_dirty b f :
  is_dirty_ (page_at f (UnpinPageImpl page_id is_dirty b).2) = is_dirty_ (page_at f b).
Proof.
  unfold UnpinPageImpl. destruct (page_table_ b !! page_id) as [g|]; [|done].
  assert (∀ p, is_dirty_ p = is_dirty_ (page_at g b) →
    is_dirty_ (<[g := p]> (pages_ b) !!! f) = is_dirty_ (pages_ b !!! f)) as Hins.
  { intros p Hp. destruct (decide (g = f)) as [->|Hne].
    - destruct (decide (f < length (pages_ b))%nat).
      + by rewrite list_lookup_total_insert_eq.
      + by rewrite list_insert_ge by lia.
    - by rewrite list_lookup_total_insert_ne. }
  repeat case_match; unfold page_at; simpl; apply Hins; done.
Qed.


(** [NewPageImpl] hands out its frame with a pin count of zero. *)
Lemma NewPageImpl_pin_count b f new_id b' :
  NewPageImpl b = (Some (f, new_id), b') → (f < length (pages_ b))%nat →
  page_table_ b' !! new_id = Some f ∧ new_id = next_page_id (disk_manager_ b) ∧
  pages_ b' !! f = Some (mkPage zero_buffer new_id 0 (is_dirty_ (page_at f b))).
Proof.
  unfold NewPageImpl. destruct (GetVictimPage b) as [[g|] b1] eqn:Hv; [|done].
  apply GetVictimPage_Some in Hv as (Hn & Hp & Ht & Hd & _).
  simpl. intros [= -> <- <-] Hlt. simpl. rewrite Hd, Hp. unfold page_at. rewrite Hp.
  split; [apply lookup_insert_eq|]. split; [done|].
  by rewrite list_lookup_insert_eq.
Qed.

End Calls.

(** ** Properties of the operations *)

Section Properties.
Context `{PageConfig} {R : Type} `{!Replacer R}.
Implicit Types b : BufferPoolManager R.

(** The claimed partition of the frame slots: every slot is either in the
    free list or a value of the page table, and not both. *)
Definition slot_partition b : Prop :=
  ∀ f, (f < pool_size_ b)%nat →
    (f ∈ free_list_ b ∧ ∀ page_id, page_table_ b !! page_id ≠ Some f) ∨
    ((f ∉ free_list_ b) ∧ ∃ page_id, page_table_ b !! page_id = Some f).

(** What holds of it: no slot is in both collections. *)
Definition free_list_disjoint b : Prop :=
  ∀ f page_id, f ∈ free_list_ b → page_table_ b !! page_id ≠ Some f.

(** C3 (amended): in every pool reached from a freshly constructed one by
    a sequence of fetch, unpin, flush, new_page, delete_page and flush_all
    calls in which every delete_page puts on the free list the frame of the
    entry it erased, the free list is disjoint from the page table's value
    set: a frame slot is in at most one of the two collections. (It can be
    in neither. What a delete_page puts on the free list when its read of
    the erased node yields something else is left open.) *)
Theorem free_list_disjoint_reachable (n : nat) (d : DiskManager) (ops : list Op) :
  intact_reads ops (BufferPoolManager_new n d) = true →
  free_list_disjoint (run ops (BufferPoolManager_new n d)).
Proof.
  intros Hreads. pose proof (run_inv ops _ (pool_inv_new n d) Hreads) as Hinv.
  intros f page_id Hf Hlk. apply frames_of_lookup in Hlk.
  by apply (inv_free_resident _ Hinv f).
Qed.

(** The claimed sign of the pin counts. *)
Definition pins_nonneg b : Prop := ∀ f p, pages_ b !! f = Some p → 0 ≤ pin_count_ p.

(** C4 (amended): after any sequence of fewer than 2^31 fetch, unpin and
    new_page calls on a freshly constructed pool no frame has a negative
    pin count; and after any sequence of such calls, of whatever length,
    the frame a fetch of a non-resident page or a new_page takes as its
    victim has a pin count of zero at that moment. *)
Theorem pinned_frame_never_victim (n : nat) (d : DiskManager) (ops : list Op) :
  Forall pin_op ops →
  (Z.of_nat (length ops) < 2147483648 →
   pins_nonneg (run ops (BufferPoolManager_new n d))) ∧
  (∀ page_id f b',
     page_table_ (run ops (BufferPoolManager_new n d)) !! page_id = None →
     FetchPageImpl page_id (run ops (BufferPoolManager_new n d)) = (Some f, b') →
     ∃ p, pages_ (run ops (BufferPoolManager_new n d)) !! f = Some p ∧
          pin_count_ p = 0) ∧
  (∀ f new_id b',
     NewPageImpl (run ops (BufferPoolManager_new n d)) = (Some (f, new_id), b') →
     ∃ p, pages_ (run ops (BufferPoolManager_new n d)) !! f = Some p ∧
          pin_count_ p = 0).
Proof.
  intros Hops.
  destruct (run_pin_inv ops _ Hops (pool_inv_new n d) (pin_inv_new n d)) as [Hinv Hpin].
  split; [|split].
  - intros Hlen f p Hp.
    assert (Z.of_nat (length ops) ≤ INT_MAX) as Hle by (unfold INT_MAX; lia).
    pose proof (reachable_pin_count_range n d ops Hle) as Hr.
    by apply (proj1 (Forall_lookup _ _) Hr f p) in Hp as [? _].
  - intros page_id f b' Hlk Hf.
    destruct (FetchPageImpl_Some_miss _ _ _ _ Hlk Hf) as [b1 Hv].
    by eapply GetVictimPage_unpinned.
  - intros f new_id b' Hnew. destruct (NewPageImpl_Some _ _ _ _ Hnew) as [b1 Hv].
    by eapply GetVictimPage_unpinned.
Qed.



(** The claimed result of unpin: true exactly for a resident identifier. *)
Definition unpin_reports_resident (page_id : Z) (is_dirty : bool) b : Prop :=
  (UnpinPageImpl page_id is_dirty b).1 = true ↔ is_Some (page_table_ b !! page_id).

(** C6 (amended): unpin returns true exactly when the identifier is resident
    and its pin count is zero after the saturating decrement, that is when
    it was 0 or 1 at the call; on a non-resident identifier it returns false
    and changes nothing; on a resident page whose pin count was already
    zero nothing is decremented, the entry is removed from the page table
    and the call returns true. *)
Theorem UnpinPageImpl_result (page_id : Z) (is_dirty : bool) b :
  ((UnpinPageImpl page_id is_dirty b).1 = true ↔
   ∃ f, page_table_ b !! page_id = Some f ∧
        (pin_count_ (page_at f b) = 0 ∨ pin_count_ (page_at f b) = 1)) ∧
  (page_table_ b !! page_id = None → UnpinPageImpl page_id is_dirty b = (false, b)) ∧
  (∀ f p, page_table_ b !! page_id = Some f → pages_ b !! f = Some p →
     pin_count_ p = 0 →
     (UnpinPageImpl page_id is_dirty b).1 = true ∧
     pages_ (UnpinPageImpl page_id is_dirty b).2 !! f = Some p ∧
     page_table_ (UnpinPageImpl page_id is_dirty b).2 !! page_id = None).
Proof.
  unfold UnpinPageImpl. destruct (page_table_ b !! page_id) as [f|] eqn:Hlk.
  - split; [|split; [done|]].
    + destruct (Z.ltb_spec 0 (pin_count_ (page_at f b))) as [Hpos|Hle]; simpl;
        match goal with |- context [?x =? 0] => destruct (Z.eqb_spec x 0) as [Hz|Hnz] end;
        simpl; split; try done.
      * intros _. exists f. split; [done|]. lia.
      * intros (g & [= <-] & Hc). lia.
      * intros _. exists f. split; [done|]. lia.
      * intros (g & [= <-] & Hc). lia.
    + intros g p [= <-] Hp Hz. rewrite (page_at_lookup _ _ _ Hp), Hz. simpl.
      rewrite Hz. simpl. split; [done|].
      destruct is_dirty; simpl; (split; [|apply lookup_delete_eq]);
        rewrite list_insert_id; done.
  - split; [|split; [done|]].
    + split; [done|]. intros (g & [=] & _).
    + intros g p [=].
Qed.

(** The claimed reads of a fetch: none for a resident identifier, one, of
    the identifier, for any other. *)
Definition fetch_reads_once (page_id : Z) b : Prop :=
  reads (issued b (FetchPageImpl page_id b).2) =
  match page_table_ b !! page_id with Some _ => [] | None => [page_id] end.

(** C8 (amended): a fetch of a resident identifier issues no read; a fetch
    of a non-resident identifier that obtains a victim frame issues exactly
    one read, of that identifier; a fetch of a non-resident identifier that
    finds no victim frame issues none. *)
Theorem FetchPageImpl_reads (page_id : Z) b :
  reads (issued b (FetchPageImpl page_id b).2) =
  match page_table_ b !! page_id, (FetchPageImpl page_id b).1 with
  | Some _, _ => []
  | None, Some _ => [page_id]
  | None, None => []
  end.
Proof.
  destruct (page_table_ b !! page_id) as [f|] eqn:Hlk.
  - rewrite (FetchPageImpl_hit _ _ _ Hlk). simpl. by rewrite issued_same.
  - destruct (GetVictimPage b) as [[f|] b1] eqn:Hv.
    + destruct (FetchPageImpl_miss _ _ _ _ Hlk Hv)
        as (b' & -> & _ & _ & _ & _ & _ & Hc & _).
      simpl in *. rewrite (issued_app _ _ _ Hc).
      by destruct (is_dirty_ (page_at f b)).
    + rewrite (FetchPageImpl_exhausted _ _ _ Hlk Hv). simpl.
      apply GetVictimPage_None in Hv as (_ & _ & _ & Hd & _).
      by rewrite issued_same.
Qed.



(** C10: delete_page on a resident page with a positive pin count returns
    false and leaves the whole pool as it was: page table, free list and
    every frame's identifier, pin count, dirty flag and buffer. *)
Theorem DeletePageImpl_pinned (page_id : Z) (freed_read : nat) b (f : nat) :
  page_table_ b !! page_id = Some f →
  0 < pin_count_ (page_at f b) →
  DeletePageImpl page_id freed_read b = (false, b).
Proof.
  intros Hlk Hpin. unfold DeletePageImpl. rewrite Hlk.
  by destruct (Z.ltb_spec 0 (pin_count_ (page_at f b))); [|lia].
Qed.

End Properties.

(** ** Concrete pools *)

Section Scenarios.

(** Pages of four bytes, the queue replacer, a disk nothing was written to. *)
#[local] Instance scenario_page_size : PageConfig := 4%nat.

Definition empty_disk : DiskManager := mkDisk ∅ 0 [].

Definition fresh_pool (n : nat) : BufferPoolManager QueueReplacer :=
  BufferPoolManager_new n empty_disk.

Definition some_buffer : list Byte.byte := [Byte.x01; Byte.x02; Byte.x03; Byte.x04].

(** A state of a one-frame pool in which the frame holds page 3 with its
    dirty flag set, unpinned and offered by the replacer. (No sequence of
    calls leads to it; it exercises the paths that test [is_dirty_].) *)
Definition dirty_victim_pool : BufferPoolManager QueueReplacer :=
  mkBPM 1 [mkPage some_buffer 3 0 true] ∅ [] [0%nat] empty_disk.

(** C1: on a one-frame pool, after fetch(5), fetch(5), unpin(5, true) page 5
    is resident with one pin and its frame is not marked dirty; the
    following unpin(5, false) brings the pin count to zero and fetch(6)
    reuses the frame for page 6, and the disk has seen the two reads and no
    write: the modification announced by unpin(5, true) is never written
    back. *)
Theorem unpin_dirty_not_written_back :
  page_table_ (run [OpFetch 5; OpFetch 5; OpUnpin 5 true] (fresh_pool 1)) !! 5
    = Some 0%nat ∧
  pages_ (run [OpFetch 5; OpFetch 5; OpUnpin 5 true] (fresh_pool 1)) !! 0%nat
    = Some (mkPage zero_buffer 5 1 false) ∧
  (UnpinPageImpl 5 false
     (run [OpFetch 5; OpFetch 5; OpUnpin 5 true] (fresh_pool 1))).1 = true ∧
  pages_ (run [OpFetch 5; OpFetch 5; OpUnpin 5 true; OpUnpin 5 false] (fresh_pool 1))
    !! 0%nat = Some (mkPage zero_buffer 5 0 false) ∧
  calls (disk_manager_
    (run [OpFetch 5; OpFetch 5; OpUnpin 5 true; OpUnpin 5 false] (fresh_pool 1)))
    = [CallRead 5] ∧
  pages_ (run [OpFetch 5; OpFetch 5; OpUnpin 5 true; OpUnpin 5 false; OpFetch 6]
            (fresh_pool 1)) !! 0%nat = Some (mkPage zero_buffer 6 1 false) ∧
  calls (disk_manager_
    (run [OpFetch 5; OpFetch 5; OpUnpin 5 true; OpUnpin 5 false; OpFetch 6]
       (fresh_pool 1))) = [CallRead 5; CallRead 6].
Proof. repeat split; vm_compute; reflexivity. Qed.

(** C2: new_page on a fresh one-frame pool succeeds with frame 0 and the
    allocator's identifier 0; the page is resident and its buffer is zeroed,
    but its pin count is 0, not 1. *)
Theorem new_page_pin_count_zero :
  (NewPageImpl (fresh_pool 1)).1 = Some (0%nat, 0) ∧
  page_table_ (NewPageImpl (fresh_pool 1)).2 !! 0 = Some 0%nat ∧
  pages_ (NewPageImpl (fresh_pool 1)).2 !! 0%nat = Some (mkPage zero_buffer 0 0 false).
Proof. repeat split; vm_compute; reflexivity. Qed.

(** C3, as claimed, fails: after fetch(5) and unpin(5, false) on a one-frame
    pool, slot 0 is neither in the free list nor a value of the page table. *)
Lemma slot_partition_fails :
  ¬ slot_partition (run [OpFetch 5; OpUnpin 5 false] (fresh_pool 1)).
Proof.
  intros Hp. destruct (Hp 0%nat) as [[Hin _]|[_ [page_id Hlk]]].
  - vm_compute. lia.
  - vm_compute in Hin. inversion Hin.
  - assert (page_table_ (run [OpFetch 5; OpUnpin 5 false] (fresh_pool 1)) = ∅) as Ht
      by (vm_compute; reflexivity).
    rewrite Ht, lookup_empty in Hlk. discriminate.
Qed.

Lemma free_list_disjoint_reachable_witness :
  free_list_disjoint
    (run [OpNewPage; OpDeletePage 0 0%nat; OpFetch 7; OpUnpin 7 false] (fresh_pool 2)).
Proof.
  refine (free_list_disjoint_reachable 2 empty_disk
            [OpNewPage; OpDeletePage 0 0%nat; OpFetch 7; OpUnpin 7 false] _).
  vm_compute. reflexivity.
Defined.

(** What is left open in C3: when the read of the erased node yields another
    frame than the erased entry's, here 0 where frame 1 was released, the
    free list and the page table overlap. *)
Lemma delete_page_other_read :
  ¬ free_list_disjoint (run [OpNewPage; OpNewPage; OpDeletePage 1 0%nat] (fresh_pool 2)).
Proof.
  intros Hd. apply (Hd 0%nat 0).
  - vm_compute. left.
  - vm_compute. reflexivity.
Qed.

(** Fetching page 5 over and over on a one-frame pool: the first fetch
    loads it with one pin, every further one is an [int] increment. *)
Lemma int_wrap_succ (z : Z) : int_wrap (int_wrap z + 1) = int_wrap (z + 1).
Proof.
  unfold int_wrap. f_equal.
  replace ((z + 2147483648) mod 4294967296 - 2147483648 + 1 + 2147483648)
    with ((z + 2147483648) mod 4294967296 + 1) by lia.
  rewrite Z.add_mod_idemp_l by lia. f_equal. lia.
Qed.

Lemma repeated_fetch (k : nat) :
  page_table_ (run (replicate (S k) (OpFetch 5)) (fresh_pool 1)) !! 5 = Some 0%nat ∧
  pages_ (run (replicate (S k) (OpFetch 5)) (fresh_pool 1))
    = [mkPage zero_buffer 5 (int_wrap (1 + Z.of_nat k)) false].
Proof.
  induction k as [|k [IHt IHp]].
  - split; vm_compute; reflexivity.
  - rewrite replicate_S_end. unfold run in *. rewrite foldl_snoc.
    cbn [step]. rewrite (FetchPageImpl_hit _ _ _ IHt). cbn [snd].
    split; [exact IHt|].
    unfold set_page_at, page_at, set_pages, set_replacer. cbn [pages_].
    rewrite IHp. cbn [lookup_total list_lookup_total insert list_insert].
    unfold set_pin_count. cbn [pin_count_ data_ page_id_ is_dirty_].
    rewrite int_wrap_succ. do 3 f_equal. lia.
Qed.

(** C4, as claimed, fails: after 2^31 fetches of page 5 on a one-frame pool
    the pin count of its frame is negative. *)
Lemma pins_nonneg_fails :
  Forall pin_op (replicate (S (Z.to_nat 2147483647)) (OpFetch 5)) ∧
  ¬ pins_nonneg (run (replicate (S (Z.to_nat 2147483647)) (OpFetch 5)) (fresh_pool 1)).
Proof.
  split; [by apply Forall_replicate|].
  intros Hnn. destruct (repeated_fetch (Z.to_nat 2147483647)) as [_ Hp].
  rewrite Z2Nat.id in Hp by lia.
  change (int_wrap (1 + 2147483647)) with (-2147483648) in Hp.
  specialize (Hnn 0%nat (mkPage zero_buffer 5 (-2147483648) false)).
  rewrite Hp in Hnn. specialize (Hnn eq_refl).
  unfold pin_count_ in Hnn. lia.
Qed.

Lemma pinned_frame_never_victim_witness :
  pins_nonneg (run [OpFetch 5; OpUnpin 5 false] (fresh_pool 1)) ∧
  ∃ p, pages_ (run [OpFetch 5; OpUnpin 5 false] (fresh_pool 1)) !! 0%nat = Some p ∧
       pin_count_ p = 0.
Proof.
  assert (Forall pin_op [OpFetch 5; OpUnpin 5 false]) as Hops by repeat constructor.
  split.
  - refine (proj1 (pinned_frame_never_victim 1 empty_disk
              [OpFetch 5; OpUnpin 5 false] Hops) _).
    reflexivity.
  - refine (proj1 (proj2 (pinned_frame_never_victim 1 empty_disk
              [OpFetch 5; OpUnpin 5 false] Hops)) 6 0%nat
              (FetchPageImpl 6 (run [OpFetch 5; OpUnpin 5 false] (fresh_pool 1))).2 _ _).
    + vm_compute. reflexivity.
    + vm_compute. reflexivity.
Defined.

(** Outside sequences of fetch, unpin and new_page a pinned frame can be
    taken as victim: flush(5) hands the pinned frame of page 5 to the
    replacer and fetch(6) reuses it. *)
Lemma flush_offers_pinned_frame :
  pages_ (run [OpFetch 5; OpFlush 5] (fresh_pool 1)) !! 0%nat
    = Some (mkPage zero_buffer 5 1 false) ∧
  (FetchPageImpl 6 (run [OpFetch 5; OpFlush 5] (fresh_pool 1))).1 = Some 0%nat.
Proof. split; vm_compute; reflexivity. Qed.


(** C6, as claimed, fails: page 5 is resident with two pins, and unpin
    returns false. *)
Lemma unpin_reports_resident_fails :
  ¬ unpin_reports_resident 5 false (run [OpFetch 5; OpFetch 5] (fresh_pool 1)).
Proof.
  intros [_ Hres]. assert (false = true) as Hft; [|discriminate].
  apply Hres. vm_compute. eauto.
Qed.

Lemma UnpinPageImpl_result_witness :
  (UnpinPageImpl 0 false (run [OpNewPage] (fresh_pool 1))).1 = true ∧
  pages_ (UnpinPageImpl 0 false (run [OpNewPage] (fresh_pool 1))).2 !! 0%nat
    = Some (mkPage zero_buffer 0 0 false) ∧
  page_table_ (UnpinPageImpl 0 false (run [OpNewPage] (fresh_pool 1))).2 !! 0 = None.
Proof.
  refine (proj2 (proj2 (UnpinPageImpl_result 0 false (run [OpNewPage] (fresh_pool 1))))
            0%nat (mkPage zero_buffer 0 0 false) _ _ _).
  - vm_compute. reflexivity.
  - vm_compute. reflexivity.
  - reflexivity.
Defined.


(** C8, as claimed, fails: with the only frame pinned by page 1, fetch(2)
    finds no victim and reads nothing although page 2 is not resident. *)
Lemma fetch_reads_once_fails :
  ¬ fetch_reads_once 2 (run [OpFetch 1] (fresh_pool 1)).
Proof. unfold fetch_reads_once. vm_compute. discriminate. Qed.

(** C9: new_page on a fresh one-frame pool makes page 0 resident;
    delete_page(0) then succeeds and removes it, whatever its read of the
    erased node puts on the free list, and the disk manager has seen the
    allocation only: no deallocation is requested. *)
Theorem delete_page_no_deallocate (freed_read : nat) :
  page_table_ (run [OpNewPage] (fresh_pool 1)) !! 0 = Some 0%nat ∧
  (DeletePageImpl 0 freed_read (run [OpNewPage] (fresh_pool 1))).1 = true ∧
  page_table_ (DeletePageImpl 0 freed_read (run [OpNewPage] (fresh_pool 1))).2 !! 0
    = None ∧
  free_list_ (DeletePageImpl 0 freed_read (run [OpNewPage] (fresh_pool 1))).2
    = [freed_read] ∧
  calls (disk_manager_ (DeletePageImpl 0 freed_read (run [OpNewPage] (fresh_pool 1))).2)
    = [CallAllocate 0].
Proof. repeat split; vm_compute; reflexivity. Qed.

Lemma DeletePageImpl_pinned_witness :
  DeletePageImpl 5 0%nat (run [OpFetch 5] (fresh_pool 1))
  = (false, run [OpFetch 5] (fresh_pool 1)).
Proof.
  refine (DeletePageImpl_pinned 5 0%nat (run [OpFetch 5] (fresh_pool 1)) 0%nat _ _).
  - vm_compute. reflexivity.
  - vm_compute. reflexivity.
Defined.

End Scenarios.

(** ** Further invariants of the book-keeping *)

Section Bookkeeping.
Context `{PageConfig} {R : Type} `{!Replacer R}.
Implicit Types b : BufferPoolManager R.

(** Every frame index the pool holds points into [pages_]. *)
Definition indices_in_range b : Prop :=
  length (pages_ b) = pool_size_ b ∧
  (∀ f, f ∈ free_list_ b → (f < pool_size_ b)%nat) ∧
  (∀ page_id f, page_table_ b !! page_id = Some f → (f < pool_size_ b)%nat) ∧
  (∀ f, f ∈ evictable (replacer_ b) → (f < pool_size_ b)%nat).

(** The replacer's candidates are neither free nor resident, and the free
    list holds no frame twice. *)
Definition candidates_apart b : Prop :=
  NoDup (free_list_ b) ∧
  ∀ f, f ∈ evictable (replacer_ b) →
    (f ∉ free_list_ b) ∧ ∀ page_id, page_table_ b !! page_id ≠ Some f.

(** The page table agrees with the frames: the frame an identifier is
    mapped to carries that identifier. *)
Definition table_agrees b : Prop :=
  ∀ page_id f, page_table_ b !! page_id = Some f →
    ∃ p, pages_ b !! f = Some p ∧ page_id_ p = page_id.

Lemma pool_inv_reachable n d ops :
  intact_reads ops (BufferPoolManager_new n d) = true →
  pool_inv (run ops (BufferPoolManager_new n d)).
Proof. intros Hreads. by apply run_inv; [apply pool_inv_new|]. Qed.

(** X1: in every pool reached from a freshly constructed one by a sequence
    of calls in which every delete_page reads an intact node, no two
    identifiers of the page table share a frame. *)
Theorem page_table_injective_reachable (n : nat) (d : DiskManager) (ops : list Op) :
  intact_reads ops (BufferPoolManager_new n d) = true →
  table_inj (page_table_ (run ops (BufferPoolManager_new n d))).
Proof. intros Hreads. by apply inv_table_inj, pool_inv_reachable. Qed.

(** No call changes the capacity recorded at construction. *)
Lemma step_pool_size b o : pool_size_ (step b o) = pool_size_ b.
Proof.
  destruct o as [page_id|page_id is_dirty|page_id| |page_id freed_read|]; simpl.
  - destruct (page_table_ b !! page_id) as [f|] eqn:Hlk.
    + by rewrite (FetchPageImpl_hit _ _ _ Hlk).
    + destruct (GetVictimPage b) as [[f|] b1] eqn:Hv.
      * by destruct (FetchPageImpl_miss _ _ _ _ Hlk Hv) as (b' & -> & Hn & _).
      * rewrite (FetchPageImpl_exhausted _ _ _ Hlk Hv).
        by apply GetVictimPage_None in Hv as (Hn & _).
  - unfold UnpinPageImpl. by repeat case_match.
  - unfold FlushPageImpl. by repeat case_match.
  - unfold NewPageImpl. destruct (GetVictimPage b) as [[f|] b1] eqn:Hv; simpl.
    + by apply GetVictimPage_Some in Hv as (Hn & _).
    + by apply GetVictimPage_None in Hv as (Hn & _).
  - unfold DeletePageImpl. by repeat case_match.
  - unfold FlushAllPagesImpl. simpl.
    by destruct (foldl_flush_entry (map_to_list (page_table_ b)) b) as (Hn & _).
Qed.

Lemma pool_size_reachable n d ops : pool_size_ (run ops (BufferPoolManager_new n d)) = n.
Proof.
  induction ops as [|o ops IH] using rev_ind; [done|].
  unfold run in *. by rewrite foldl_snoc, step_pool_size.
Qed.

(** X2: in every pool reached from a freshly constructed one by a sequence
    of calls in which every delete_page reads an intact node, the frame
    array keeps the length given at construction and every index in the
    free list, in the page table and among the replacer's candidates is
    below it: no operation indexes [pages_] out of bounds. *)
Theorem indices_in_range_reachable (n : nat) (d : DiskManager) (ops : list Op) :
  intact_reads ops (BufferPoolManager_new n d) = true →
  indices_in_range (run ops (BufferPoolManager_new n d)) ∧
  pool_size_ (run ops (BufferPoolManager_new n d)) = n.
Proof.
  intros Hreads. split; [|apply pool_size_reachable].
  destruct (pool_inv_reachable n d ops Hreads) as [_ Hlen _ Hfr Hrr Her _ _ _].
  repeat split; try done.
  intros page_id f Hlk. by apply Hrr, frames_of_lookup with page_id.
Qed.

(** X3: in every pool reached from a freshly constructed one by a sequence
    of calls in which every delete_page reads an intact node, the free list
    holds no frame twice, and a frame the replacer offers as a candidate is
    neither in the free list nor the frame of a resident page. *)
Theorem candidates_apart_reachable (n : nat) (d : DiskManager) (ops : list Op) :
  intact_reads ops (BufferPoolManager_new n d) = true →
  candidates_apart (run ops (BufferPoolManager_new n d)).
Proof.
  intros Hreads.
  destruct (pool_inv_reachable n d ops Hreads) as [_ _ Hnd _ _ _ _ Hfe Hep].
  split; [done|]. intros f Hf. split.
  - intros Hin. by apply (Hfe f).
  - intros page_id Hlk. apply (Hep f Hf). by apply frames_of_lookup with page_id.
Qed.

(** What the pool accounts for: resident pages, free frames, candidates. *)
Definition accounted b : nat :=
  (size (page_table_ b) + length (free_list_ b) + size (evictable (replacer_ b)))%nat.

Lemma size_union_le (X Y : gset nat) : (size (X ∪ Y) ≤ size X + size Y)%nat.
Proof.
  rewrite size_union_alt. apply Nat.add_le_mono_l, subseteq_size. set_solver.
Qed.

Lemma size_insert_le (pt : gmap Z nat) i f : (size (<[i := f]> pt) ≤ S (size pt))%nat.
Proof. rewrite map_size_insert. destruct (pt !! i); simpl; lia. Qed.

Lemma size_delete_le (pt : gmap Z nat) i : (size (delete i pt) ≤ size pt)%nat.
Proof. rewrite map_size_delete. destruct (pt !! i); simpl; lia. Qed.

Lemma size_delete_present (pt : gmap Z nat) i f :
  pt !! i = Some f → S (size (delete i pt)) = size pt.
Proof.
  intros Hi. rewrite map_size_delete, Hi. simpl.
  assert (size pt ≠ 0%nat); [|lia].
  intros Hz%map_size_empty_inv. by rewrite Hz, lookup_empty in Hi.
Qed.

Lemma size_frames_of_le (pt : gmap Z nat) : (size (frames_of pt) ≤ size pt)%nat.
Proof.
  induction pt as [|i f pt Hi IH] using map_ind.
  - unfold frames_of. by rewrite map_img_empty_L, size_empty.
  - unfold frames_of in *. rewrite map_img_insert_notin_L by done.
    rewrite map_size_insert_None by done.
    etrans; [apply size_union_le|]. rewrite size_singleton. lia.
Qed.

(** Taking a victim takes one frame out of the free list or out of the
    replacer's candidates. *)
Lemma GetVictimPage_accounted b f b' :
  GetVictimPage b = (Some f, b') →
  page_table_ b' = page_table_ b ∧
  S (length (free_list_ b') + size (evictable (replacer_ b')))
    = (length (free_list_ b) + size (evictable (replacer_ b)))%nat.
Proof.
  intros Hv. apply GetVictimPage_Some in Hv as (_ & _ & Ht & _ & Hcase).
  split; [done|]. destruct Hcase as [[-> ->]|(-> & -> & Hin & ->)]; simpl; [done|].
  rewrite size_difference by set_solver. rewrite size_singleton.
  assert (size (evictable (replacer_ b)) ≠ 0%nat); [|lia].
  intros Hz%size_empty_inv. apply (Hz f) in Hin. set_solver.
Qed.

Lemma step_accounted b o : (accounted (step b o) ≤ accounted b)%nat.
Proof.
  unfold accounted.
  destruct o as [page_id|page_id is_dirty|page_id| |page_id freed_read|]; simpl.
  - destruct (page_table_ b !! page_id) as [f|] eqn:Hlk.
    + rewrite (FetchPageImpl_hit _ _ _ Hlk). simpl. rewrite evictable_Pin.
      assert (size (evictable (replacer_ b) ∖ {[f]}) ≤ size (evictable (replacer_ b)))%nat
        by (apply subseteq_size; set_solver). lia.
    + destruct (GetVictimPage b) as [[f|] b1] eqn:Hv.
      * destruct (FetchPageImpl_miss _ _ _ _ Hlk Hv)
          as (b' & -> & _ & Hfl & Hr & Ht & _). simpl in *.
        destruct (GetVictimPage_accounted _ _ _ Hv) as [_ Hacc].
        rewrite Ht, Hfl, Hr.
        pose proof (size_insert_le (delete (page_id_ (page_at f b)) (page_table_ b))
                      page_id f).
        pose proof (size_delete_le (page_table_ b) (page_id_ (page_at f b))). lia.
      * rewrite (FetchPageImpl_exhausted _ _ _ Hlk Hv). simpl.
        apply GetVictimPage_None in Hv as (_ & _ & -> & _ & -> & -> & -> & ->). lia.
  - unfold UnpinPageImpl. destruct (page_table_ b !! page_id) as [f|] eqn:Hlk; [|done].
    pose proof (size_delete_present _ _ _ Hlk).
    pose proof (size_union_le {[f]} (evictable (replacer_ b))) as Hu.
    rewrite size_singleton in Hu.
    repeat case_match; simpl; rewrite ?evictable_Unpin; lia.
  - unfold FlushPageImpl. destruct (page_table_ b !! page_id) as [f|] eqn:Hlk; [|done].
    pose proof (size_delete_present _ _ _ Hlk).
    pose proof (size_union_le {[f]} (evictable (replacer_ b))) as Hu.
    rewrite size_singleton in Hu. simpl. rewrite evictable_Unpin. lia.
  - unfold NewPageImpl. destruct (GetVictimPage b) as [[f|] b1] eqn:Hv; simpl.
    + destruct (GetVictimPage_accounted _ _ _ Hv) as [Ht Hacc]. rewrite Ht.
      pose proof (size_insert_le (page_table_ b) (next_page_id (disk_manager_ b1)) f).
      lia.
    + apply GetVictimPage_None in Hv as (_ & _ & -> & _ & -> & -> & -> & ->). lia.
  - unfold DeletePageImpl. destruct (page_table_ b !! page_id) as [f|] eqn:Hlk; [|done].
    pose proof (size_delete_present _ _ _ Hlk).
    case_match; simpl; [done|]. rewrite length_app. simpl. lia.
  - unfold FlushAllPagesImpl. simpl.
    destruct (foldl_flush_entry (map_to_list (page_table_ b)) b)
      as (_ & _ & _ & -> & ->).
    rewrite <-map_img_alt_L, map_size_empty.
    pose proof (size_union_le (map_img (page_table_ b)) (evictable (replacer_ b))).
    pose proof (size_frames_of_le (page_table_ b)). unfold frames_of in *. lia.
Qed.

Lemma accounted_reachable n d ops :
  (accounted (run ops (BufferPoolManager_new n d)) ≤ n)%nat.
Proof.
  induction ops as [|o ops IH] using rev_ind.
  - unfold accounted. simpl.
    by rewrite map_size_empty, evictable_new, size_empty, length_seq, !Nat.add_0_r.
  - unfold run in *. rewrite foldl_snoc. etrans; [apply step_accounted|done].
Qed.

(** X4: in every pool built through the public interface the resident
    pages, the free frames and the replacer's candidates together never
    exceed the capacity of the pool. *)
Theorem capacity_bound_reachable (n : nat) (d : DiskManager) (ops : list Op) :
  (size (page_table_ (run ops (BufferPoolManager_new n d)))
   + length (free_list_ (run ops (BufferPoolManager_new n d)))
   + size (evictable (replacer_ (run ops (BufferPoolManager_new n d))))
   ≤ n)%nat.
Proof. apply accounted_reachable. Qed.

(** Writing a frame that is not the frame of the entry at hand. *)
Lemma table_agrees_entry (ps : list Page) f g p q (page_id : Z) :
  ps !! g = Some q → page_id_ q = page_id →
  (g = f → page_id_ p = page_id) →
  ∃ q', <[f := p]> ps !! g = Some q' ∧ page_id_ q' = page_id.
Proof.
  intros Hg Hq Hp. destruct (decide (g = f)) as [->|Hne].
  - exists p. split; [|by apply Hp].
    apply list_lookup_insert_eq. by eapply lookup_lt_Some.
  - exists q. by rewrite list_lookup_insert_ne.
Qed.

Lemma table_agrees_new n d : table_agrees (BufferPoolManager_new n d).
Proof. intros page_id f Hlk. simpl in Hlk. by rewrite lookup_empty in Hlk. Qed.

Lemma FetchPageImpl_agrees page_id b :
  pool_inv b → table_agrees b → table_agrees (FetchPageImpl page_id b).2.
Proof.
  intros Hinv Hag. destruct (page_table_ b !! page_id) as [f|] eqn:Hlk.
  - rewrite (FetchPageImpl_hit _ _ _ Hlk). simpl. intros id g Hg. simpl in *.
    destruct (Hag _ _ Hg) as (q & Hq & Hid).
    apply (table_agrees_entry _ _ _ _ _ _ Hq Hid). intros ->.
    unfold page_at. simpl. by rewrite (list_lookup_total_correct _ _ _ Hq).
  - destruct (GetVictimPage b) as [[f|] b1] eqn:Hv.
    + destruct (FetchPageImpl_miss _ _ _ _ Hlk Hv)
        as (b' & -> & _ & _ & _ & Ht & Hp & _).
      destruct (GetVictimPage_inv _ _ _ Hinv Hv) as (Hinv1 & Hlt & _ & _ & Hnr).
      destruct (GetVictimPage_Some _ _ _ Hv) as (Hn & Hp1 & Ht1 & _).
      simpl in *. intros id g Hg. rewrite Ht in Hg. rewrite Hp.
      apply lookup_insert_Some in Hg as [[<- <-]|[Hne Hg]].
      * eexists (mkPage _ _ _ _). split; [|reflexivity].
        apply list_lookup_insert_eq. rewrite <-Hp1, (inv_length _ Hinv1). done.
      * apply lookup_delete_Some in Hg as [_ Hg].
        destruct (Hag _ _ Hg) as (q & Hq & Hid).
        apply (table_agrees_entry _ _ _ _ _ _ Hq Hid). intros ->.
        exfalso. apply Hnr. unfold resident_frames. rewrite Ht1.
        by eapply frames_of_lookup.
    + rewrite (FetchPageImpl_exhausted _ _ _ Hlk Hv). simpl.
      apply GetVictimPage_None in Hv as (_ & Hp & Ht & _).
      intros id g Hg. rewrite Ht in Hg. rewrite Hp. by apply Hag.
Qed.

Lemma UnpinPageImpl_agrees page_id is_dirty b :
  table_agrees b → table_agrees (UnpinPageImpl page_id is_dirty b).2.
Proof.
  intros Hag. unfold UnpinPageImpl.
  destruct (page_table_ b !! page_id) as [f|] eqn:Hlk; [|done].
  assert (∀ id g, page_table_ b !! id = Some g →
    ∃ q', <[f := if 0 <? pin_count_ (page_at f b)
                then set_pin_count (pin_count_ (page_at f b) - 1) (page_at f b)
                else page_at f b]> (pages_ b) !! g = Some q' ∧ page_id_ q' = id) as Hstep.
  { intros id g Hg. destruct (Hag _ _ Hg) as (q & Hq & Hid).
    apply (table_agrees_entry _ _ _ _ _ _ Hq Hid). intros ->.
    rewrite (page_at_lookup _ _ _ Hq). by case_match. }
  repeat case_match; simpl; intros id g Hg; simpl in *;
    try apply lookup_delete_Some in Hg as [_ Hg]; by apply Hstep.
Qed.

Lemma FlushPageImpl_agrees page_id b :
  table_agrees b → table_agrees (FlushPageImpl page_id b).2.
Proof.
  intros Hag. unfold FlushPageImpl.
  destruct (page_table_ b !! page_id) as [f|] eqn:Hlk; [|done].
  simpl. intros id g Hg. simpl in *.
  apply lookup_delete_Some in Hg as [_ Hg]. by apply Hag.
Qed.

Lemma NewPageImpl_agrees b : pool_inv b → table_agrees b → table_agrees (NewPageImpl b).2.
Proof.
  intros Hinv Hag. unfold NewPageImpl.
  destruct (GetVictimPage b) as [[f|] b1] eqn:Hv.
  - destruct (GetVictimPage_inv _ _ _ Hinv Hv) as (Hinv1 & Hlt & _ & _ & Hnr).
    destruct (GetVictimPage_Some _ _ _ Hv) as (Hn & Hp1 & Ht1 & _).
    simpl. intros id g Hg. simpl in *.
    apply lookup_insert_Some in Hg as [[<- <-]|[Hne Hg]].
    + eexists (mkPage _ _ _ _). split; [|reflexivity].
      apply list_lookup_insert_eq. rewrite (inv_length _ Hinv1). done.
    + rewrite Ht1 in Hg. destruct (Hag _ _ Hg) as (q & Hq & Hid).
      rewrite Hp1. apply (table_agrees_entry _ _ _ _ _ _ Hq Hid). intros ->.
      exfalso. apply Hnr. unfold resident_frames. rewrite Ht1.
      by eapply frames_of_lookup.
  - simpl. apply GetVictimPage_None in Hv as (_ & Hp & Ht & _).
    intros id g Hg. rewrite Ht in Hg. rewrite Hp. by apply Hag.
Qed.

Lemma DeletePageImpl_agrees page_id freed_read b :
  pool_inv b → table_agrees b → table_agrees (DeletePageImpl page_id freed_read b).2.
Proof.
  intros Hinv Hag. unfold DeletePageImpl.
  destruct (page_table_ b !! page_id) as [f|] eqn:Hlk; [|done].
  case_match; [done|]. simpl. intros id g Hg. simpl in *.
  apply lookup_delete_Some in Hg as [Hne Hg].
  destruct (Hag _ _ Hg) as (q & Hq & Hid).
  apply (table_agrees_entry _ _ _ _ _ _ Hq Hid). intros ->.
  destruct Hne. by apply (inv_table_inj _ Hinv page_id id f).
Qed.

Lemma FlushAllPagesImpl_agrees b : table_agrees (FlushAllPagesImpl b).
Proof. intros id g Hg. simpl in Hg. by rewrite lookup_empty in Hg. Qed.

Lemma run_agrees ops b :
  pool_inv b → intact_reads ops b = true → table_agrees b → table_agrees (run ops b).
Proof.
  revert b. induction ops as [|o ops IH]; intros b Hinv Hreads Hag; [done|].
  simpl in Hreads. apply andb_true_iff in Hreads as [Hread Hreads].
  simpl. apply IH; [by apply step_inv|done|].
  destruct o; simpl;
    auto using FetchPageImpl_agrees, UnpinPageImpl_agrees, FlushPageImpl_agrees,
      NewPageImpl_agrees, DeletePageImpl_agrees, FlushAllPagesImpl_agrees.
Qed.

(** X5: in every pool reached from a freshly constructed one by a sequence
    of calls in which every delete_page reads an intact node, the page
    table agrees with the frames: the frame an identifier is mapped to is a
    frame of the array and carries that identifier in [page_id_]. *)
Theorem table_agrees_reachable (n : nat) (d : DiskManager) (ops : list Op) :
  intact_reads ops (BufferPoolManager_new n d) = true →
  table_agrees (run ops (BufferPoolManager_new n d)).
Proof.
  intros Hreads. apply run_agrees; [apply pool_inv_new|done|apply table_agrees_new].
Qed.

(** X6: no operation ever raises a dirty flag: in every pool built through
    the public interface every frame has [is_dirty_ = false]. *)
Theorem no_frame_dirty_reachable (n : nat) (d : DiskManager) (ops : list Op)
    (f : nat) (p : Page) :
  pages_ (run ops (BufferPoolManager_new n d)) !! f = Some p → is_dirty_ p = false.
Proof.
  intros Hp. pose proof (reachable_frames_clean n d ops) as Hc.
  by apply (proj1 (Forall_lookup _ _) Hc f p).
Qed.

(** X7: after [k] calls on a freshly constructed pool, [k] below 2^31, every
    pin count lies between 0 and [k]: up to there a call raises a pin count
    by one at most and never takes it below zero. *)
Theorem pin_count_range_reachable (n : nat) (d : DiskManager) (ops : list Op)
    (f : nat) (p : Page) :
  Z.of_nat (length ops) < 2147483648 →
  pages_ (run ops (BufferPoolManager_new n d)) !! f = Some p →
  0 ≤ pin_count_ p ≤ Z.of_nat (length ops).
Proof.
  intros Hlen Hp.
  assert (Z.of_nat (length ops) ≤ INT_MAX) as Hle by (unfold INT_MAX; lia).
  pose proof (reachable_pin_count_range n d ops Hle) as Hc.
  by apply (proj1 (Forall_lookup _ _) Hc f p).
Qed.

End Bookkeeping.

(** ** Victims and exhaustion *)

Section Victims.
Context `{PageConfig} {R : Type} `{!Replacer R}.
Implicit Types b : BufferPoolManager R.

(** Two pools that differ at most in the internal state of the replacer. *)
Definition same_contents b b' : Prop :=
  pool_size_ b' = pool_size_ b ∧ pages_ b' = pages_ b ∧
  page_table_ b' = page_table_ b ∧ free_list_ b' = free_list_ b ∧
  disk_manager_ b' = disk_manager_ b ∧
  evictable (replacer_ b') = evictable (replacer_ b).

Lemma GetVictimPage_fails b :
  (GetVictimPage b).1 = None ↔ free_list_ b = [] ∧ evictable (replacer_ b) = ∅.
Proof.
  split.
  - destruct (GetVictimPage b) as [[f|] b'] eqn:Hv; [done|]. intros _.
    by apply GetVictimPage_None in Hv as (_ & _ & _ & _ & Hfl & _ & He & _).
  - intros [Hfl He]. unfold GetVictimPage. rewrite Hfl.
    destruct (Victim (replacer_ b)) as [[f|] r] eqn:Hv; [|done].
    apply Victim_Some in Hv as [Hin _]. rewrite He in Hin. set_solver.
Qed.

(** X8: [GetVictimPage] finds no frame exactly when the free list is empty
    and the replacer has no candidate. *)
Theorem GetVictimPage_None_iff b :
  (GetVictimPage b).1 = None ↔ free_list_ b = [] ∧ evictable (replacer_ b) = ∅.
Proof. apply GetVictimPage_fails. Qed.

(** X9: a frame [GetVictimPage] hands out is taken from the front of the
    free list whenever the free list is not empty, without consulting the
    replacer; afterwards the frame is inside the array and is neither in the
    free list, nor a candidate of the replacer, nor the frame of a resident
    page. *)
Theorem GetVictimPage_exclusive b (f : nat) b' :
  pool_inv b → GetVictimPage b = (Some f, b') →
  (f < length (pages_ b'))%nat ∧ (f ∉ free_list_ b') ∧
  (f ∉ evictable (replacer_ b')) ∧
  (∀ page_id, page_table_ b' !! page_id ≠ Some f) ∧
  (free_list_ b ≠ [] → free_list_ b = f :: free_list_ b' ∧ replacer_ b' = replacer_ b).
Proof.
  intros Hinv Hv.
  destruct (GetVictimPage_inv _ _ _ Hinv Hv) as (Hinv1 & Hlt & Hnf & Hne & Hnr).
  rewrite (inv_length _ Hinv1). repeat split; try done.
  - intros page_id Hlk. apply Hnr. by apply frames_of_lookup with page_id.
  - apply GetVictimPage_Some in Hv as (_ & _ & _ & _ & [[Hfl _]|[Hfl _]]); done.
  - apply GetVictimPage_Some in Hv as (_ & _ & _ & _ & [[_ Hr]|[Hfl _]]); done.
Qed.

(** X10: [NewPageImpl] fails exactly when the free list is empty and the
    replacer has no candidate; a failed call allocates no identifier and
    leaves frames, page table, free list and disk as they were. *)
Theorem NewPageImpl_None_iff b :
  ((NewPageImpl b).1 = None ↔ free_list_ b = [] ∧ evictable (replacer_ b) = ∅) ∧
  ((NewPageImpl b).1 = None → same_contents b (NewPageImpl b).2).
Proof.
  rewrite <-GetVictimPage_fails. unfold NewPageImpl.
  destruct (GetVictimPage b) as [[f|] b1] eqn:Hv; simpl; [done|].
  split; [done|]. intros _.
  apply GetVictimPage_None in Hv as (Hn & Hp & Ht & Hd & Hfl & Hfl' & He & He').
  unfold same_contents. by rewrite Hn, Hp, Ht, Hd, Hfl, Hfl', He, He'.
Qed.

(** X11: [FetchPageImpl] fails exactly when the page is not resident, the
    free list is empty and the replacer has no candidate; a failed call
    reads nothing and leaves frames, page table, free list and disk as they
    were. *)
Theorem FetchPageImpl_None_iff (page_id : Z) b :
  ((FetchPageImpl page_id b).1 = None ↔
   page_table_ b !! page_id = None ∧ free_list_ b = [] ∧
   evictable (replacer_ b) = ∅) ∧
  ((FetchPageImpl page_id b).1 = None → same_contents b (FetchPageImpl page_id b).2).
Proof.
  rewrite <-GetVictimPage_fails.
  destruct (page_table_ b !! page_id) as [f|] eqn:Hlk.
  - rewrite (FetchPageImpl_hit _ _ _ Hlk). simpl. split; [|done].
    split; [done|]. by intros [? _].
  - destruct (GetVictimPage b) as [[f|] b1] eqn:Hv.
    + destruct (FetchPageImpl_miss _ _ _ _ Hlk Hv) as (b' & -> & _). simpl.
      split; [|done]. split; [done|]. by intros [_ ?].
    + rewrite (FetchPageImpl_exhausted _ _ _ Hlk Hv). simpl. split; [done|]. intros _.
      apply GetVictimPage_None in Hv as (Hn & Hp & Ht & Hd & Hfl & Hfl' & He & He').
      unfold same_contents. by rewrite Hn, Hp, Ht, Hd, Hfl, Hfl', He, He'.
Qed.

(** X12: a pool of capacity zero never hands out a frame: after any
    sequence of calls every fetch and every new_page fails. *)
Theorem zero_capacity_pool (d : DiskManager) (ops : list Op) (page_id : Z) :
  (FetchPageImpl page_id (run ops (BufferPoolManager_new 0 d))).1 = None ∧
  (NewPageImpl (run ops (BufferPoolManager_new 0 d))).1 = None.
Proof.
  pose proof (accounted_reachable 0 d ops) as Hacc. unfold accounted in Hacc.
  set (b := run ops (BufferPoolManager_new 0 d)) in *.
  assert ((GetVictimPage b).1 = None) as Hv.
  { apply GetVictimPage_fails. split.
    - apply length_zero_iff_nil. lia.
    - apply leibniz_equiv, size_empty_inv. lia. }
  assert (page_table_ b !! page_id = None) as Hlk.
  { assert (page_table_ b = ∅) as -> by (apply map_size_empty_inv; lia).
    apply lookup_empty. }
  destruct (GetVictimPage b) as [[f|] b1] eqn:Hv1; [done|]. split.
  - by rewrite (FetchPageImpl_exhausted _ _ _ Hlk Hv1).
  - unfold NewPageImpl. by rewrite Hv1.
Qed.

End Victims.

(** ** Fetching, releasing and flushing a page *)

Section Compositions.
Context `{PageConfig} {R : Type} `{!Replacer R}.
Implicit Types b : BufferPoolManager R.

Lemma run_snoc ops o b : run (ops ++ [o]) b = step (run ops b) o.
Proof. unfold run. apply foldl_snoc. Qed.

Lemma FetchPageImpl_Some_table page_id b f b' :
  FetchPageImpl page_id b = (Some f, b') → page_table_ b' !! page_id = Some f.
Proof.
  intros Hf. destruct (page_table_ b !! page_id) as [g|] eqn:Hlk.
  - rewrite (FetchPageImpl_hit _ _ _ Hlk) in Hf. by injection Hf as <- <-.
  - destruct (FetchPageImpl_Some_miss _ _ _ _ Hlk Hf) as [b1 Hv].
    destruct (FetchPageImpl_miss _ _ _ _ Hlk Hv) as (b2 & Hf' & _ & _ & _ & Ht & _).
    rewrite Hf in Hf'. injection Hf' as <-. simpl in Ht. rewrite Ht.
    apply lookup_insert_eq.
Qed.

(** X13: a successful fetch on a pool reached from a freshly constructed
    one by fewer than 2^31 - 1 calls, in which every delete_page reads an
    intact node, returns a frame of the array that the page table maps the
    identifier to, that carries the identifier, has at least one pin, and is
    neither in the free list nor a candidate of the replacer. *)
Theorem FetchPageImpl_success (n : nat) (d : DiskManager) (ops : list Op)
    (page_id : Z) (f : nat) b' :
  intact_reads ops (BufferPoolManager_new n d) = true →
  Z.of_nat (length ops) < 2147483647 →
  FetchPageImpl page_id (run ops (BufferPoolManager_new n d)) = (Some f, b') →
  page_table_ b' !! page_id = Some f ∧
  (∃ p, pages_ b' !! f = Some p ∧ page_id_ p = page_id ∧ 1 ≤ pin_count_ p) ∧
  (f ∉ free_list_ b') ∧ (f ∉ evictable (replacer_ b')).
Proof.
  intros Hreads Hlen Hf. pose proof (FetchPageImpl_Some_table _ _ _ _ Hf) as Ht.
  assert (b' = run (ops ++ [OpFetch page_id]) (BufferPoolManager_new n d)) as Hb'.
  { rewrite run_snoc. simpl. by rewrite Hf. }
  assert (intact_reads (ops ++ [OpFetch page_id]) (BufferPoolManager_new n d) = true)
    as Hreads'.
  { rewrite intact_reads_app, Hreads. done. }
  pose proof (pool_inv_reachable n d (ops ++ [OpFetch page_id]) Hreads') as Hinv.
  pose proof (run_agrees (ops ++ [OpFetch page_id]) _
                (pool_inv_new n d) Hreads' (table_agrees_new n d)) as Hag.
  rewrite <-Hb' in Hinv, Hag. split; [done|].
  pose proof (frames_of_lookup _ _ _ Ht) as Hres.
  split; [|split].
  - destruct (Hag _ _ Ht) as (p & Hp & Hid). exists p. split; [done|]. split; [done|].
    set (b := run ops (BufferPoolManager_new n d)) in *.
    destruct (page_table_ b !! page_id) as [g|] eqn:Hlk.
    + rewrite (FetchPageImpl_hit _ _ _ Hlk) in Hf. injection Hf as <- <-.
      cbn [pages_ set_page_at set_pages] in Hp.
      apply list_lookup_insert_Some in Hp as [(_ & <- & Hlt)|[? _]]; [|done].
      cbn [pages_ set_replacer] in Hlt.
      apply lookup_lt_is_Some_2 in Hlt as [q Hq].
      unfold page_at. cbn [pages_ set_replacer].
      rewrite (list_lookup_total_correct _ _ _ Hq).
      assert (Z.of_nat (length ops) ≤ INT_MAX) as Hle by (unfold INT_MAX; lia).
      pose proof (reachable_pin_count_range n d ops Hle) as Hr.
      apply (proj1 (Forall_lookup _ _) Hr _ _) in Hq.
      cbn [pin_count_ set_pin_count].
      rewrite int_wrap_in_range; unfold INT_MIN, INT_MAX; lia.
    + destruct (FetchPageImpl_Some_miss _ _ _ _ Hlk Hf) as [b1 Hv].
      destruct (FetchPageImpl_miss _ _ _ _ Hlk Hv) as (b2 & Hf' & _ & _ & _ & _ & Hps & _).
      rewrite Hf in Hf'. injection Hf' as <-. simpl in Hps. rewrite Hps in Hp.
      apply list_lookup_insert_Some in Hp as [(_ & <- & _)|[? _]]; done.
  - intros Hin. by apply (inv_free_resident _ Hinv f).
  - intros Hin. by apply (inv_evictable_resident _ Hinv f).
Qed.

(** X14: a fetch of a non-resident page that obtains frame [f] leaves in the
    frame the latest contents of the page: the frame's own old buffer when
    the frame was dirty and still carried that identifier (it is written
    back first), the stored contents otherwise, zeroes for a page never
    written. *)
Theorem FetchPageImpl_miss_contents (page_id : Z) b (f : nat) b' :
  page_table_ b !! page_id = None →
  FetchPageImpl page_id b = (Some f, b') →
  (f < length (pages_ b))%nat →
  data_ (page_at f b') =
    if is_dirty_ (page_at f b) && bool_decide (page_id_ (page_at f b) = page_id)
    then data_ (page_at f b)
    else default zero_buffer (stored (disk_manager_ b) !! page_id).
Proof.
  intros Hlk Hf Hlt. destruct (FetchPageImpl_Some_miss _ _ _ _ Hlk Hf) as [b1 Hv].
  destruct (FetchPageImpl_miss _ _ _ _ Hlk Hv)
    as (b2 & Hf' & _ & _ & _ & _ & Hps & _ & Hsd & Hsc).
  rewrite Hf in Hf'. injection Hf' as <-. simpl in *.
  unfold page_at at 1. rewrite Hps, list_lookup_total_insert_eq by done. simpl.
  destruct (is_dirty_ (page_at f b)); simpl.
  - rewrite (Hsd eq_refl). case_bool_decide as Hid.
    + by rewrite Hid, lookup_insert_eq.
    + by rewrite lookup_insert_ne.
  - by rewrite (Hsc eq_refl).
Qed.

(** X15: on a resident page that has at least one pin and fewer than
    [INT_MAX], a fetch followed by an unpin, with either flag, gives back
    the frames, the page table, the free list and the disk as they were; the
    unpin returns false. *)
Theorem fetch_then_unpin (page_id : Z) (is_dirty : bool) b (f : nat) (p : Page) :
  page_table_ b !! page_id = Some f → pages_ b !! f = Some p →
  1 ≤ pin_count_ p < 2147483647 →
  (UnpinPageImpl page_id is_dirty (FetchPageImpl page_id b).2).1 = false ∧
  pages_ (UnpinPageImpl page_id is_dirty (FetchPageImpl page_id b).2).2 = pages_ b ∧
  page_table_ (UnpinPageImpl page_id is_dirty (FetchPageImpl page_id b).2).2
    = page_table_ b ∧
  free_list_ (UnpinPageImpl page_id is_dirty (FetchPageImpl page_id b).2).2
    = free_list_ b ∧
  disk_manager_ (UnpinPageImpl page_id is_dirty (FetchPageImpl page_id b).2).2
    = disk_manager_ b.
Proof.
  intros Hlk Hp Hpin. rewrite (FetchPageImpl_hit _ _ _ Hlk).
  rewrite (page_at_lookup _ _ _ Hp).
  rewrite int_wrap_in_range by (unfold INT_MIN, INT_MAX; lia). simpl.
  unfold UnpinPageImpl. simpl. rewrite Hlk.
  pose proof (lookup_lt_Some _ _ _ Hp) as Hlt.
  unfold page_at. simpl.
  rewrite list_lookup_total_insert_eq by done. simpl.
  destruct (Z.ltb_spec 0 (pin_count_ p + 1)); [|lia]. simpl.
  destruct (Z.eqb_spec (pin_count_ p + 1 - 1) 0); [lia|]. simpl.
  repeat split; try done.
  rewrite list_insert_insert_eq. apply list_insert_id.
  rewrite Hp. f_equal. destruct p as [dt id pc dr]. unfold set_pin_count. simpl.
  f_equal. lia.
Qed.

(** X16: on a resident page with two or more pins, unpin only lowers the
    pin count by one and returns false: the [is_dirty] argument has no
    effect and nothing is written. *)
Theorem UnpinPageImpl_more_pins (page_id : Z) (is_dirty : bool) b (f : nat) (p : Page) :
  page_table_ b !! page_id = Some f → pages_ b !! f = Some p → 2 ≤ pin_count_ p →
  UnpinPageImpl page_id is_dirty b =
    (false, set_page_at f (set_pin_count (pin_count_ p - 1) p) b).
Proof.
  intros Hlk Hp Hpin. unfold UnpinPageImpl. rewrite Hlk.
  rewrite (page_at_lookup _ _ _ Hp).
  destruct (Z.ltb_spec 0 (pin_count_ p)); [|lia]. simpl.
  by destruct (Z.eqb_spec (pin_count_ p - 1) 0); [lia|].
Qed.

End Compositions.

(** ** Round trips through the disk *)

Section RoundTrips.
Context `{PageConfig} {R : Type} `{!Replacer R}.
Implicit Types b : BufferPoolManager R.

Definition all_clean b : Prop := Forall (λ p, is_dirty_ p = false) (pages_ b).

(** Reading back what the disk holds: in a pool without dirty frames that
    can still find a frame, a fetch of a non-resident page brings in the
    stored buffer. *)
Lemma fetch_stored b (page_id : Z) (buf : list Byte.byte) :
  pool_inv b → all_clean b → page_table_ b !! page_id = None →
  stored (disk_manager_ b) !! page_id = Some buf →
  (free_list_ b ≠ [] ∨ evictable (replacer_ b) ≠ ∅) →
  ∃ g b', FetchPageImpl page_id b = (Some g, b') ∧
          page_table_ b' !! page_id = Some g ∧
          pages_ b' !! g = Some (mkPage buf page_id 1 false).
Proof.
  intros Hinv Hclean Hlk Hst Hsome.
  destruct (GetVictimPage b) as [[g|] b1] eqn:Hv.
  - destruct (FetchPageImpl_miss _ _ _ _ Hlk Hv)
      as (b' & Hf & _ & _ & _ & Ht & Hps & _ & _ & Hsc).
    exists g, b'. split; [done|]. simpl in *.
    destruct (GetVictimPage_inv _ _ _ Hinv Hv) as (Hinv1 & Hlt & _).
    destruct (GetVictimPage_Some _ _ _ Hv) as (Hn & Hp1 & _).
    assert (g < length (pages_ b))%nat as Hlt'.
    { by rewrite <-Hp1, (inv_length _ Hinv1). }
    assert (is_dirty_ (page_at g b) = false) as Hcl.
    { apply lookup_lt_is_Some_2 in Hlt' as [q Hq].
      rewrite (page_at_lookup _ _ _ Hq).
      by apply (proj1 (Forall_lookup _ _) Hclean g q). }
    split; [rewrite Ht; apply lookup_insert_eq|].
    rewrite Hps, list_lookup_insert_eq by done.
    by rewrite Hcl, (Hsc Hcl), Hst.
  - exfalso. assert ((GetVictimPage b).1 = None) as Hn by by rewrite Hv.
    apply GetVictimPage_fails in Hn as [Hfl He]. by destruct Hsome.
Qed.

(** X17: on a pool without dirty frames, flushing a resident page returns
    true, writes its buffer under its identifier, whatever the dirty flag,
    and removes it from the page table, and a fetch of the identifier right
    after succeeds and brings the same buffer back, with one pin. *)
Theorem flush_then_fetch (page_id : Z) b (f : nat) (p : Page) :
  pool_inv b → all_clean b →
  page_table_ b !! page_id = Some f → pages_ b !! f = Some p →
  (FlushPageImpl page_id b).1 = true ∧
  issued b (FlushPageImpl page_id b).2 = [CallWrite page_id (data_ p)] ∧
  page_table_ (FlushPageImpl page_id b).2 !! page_id = None ∧
  ∃ g b', FetchPageImpl page_id (FlushPageImpl page_id b).2 = (Some g, b') ∧
          page_table_ b' !! page_id = Some g ∧
          pages_ b' !! g = Some (mkPage (data_ p) page_id 1 false).
Proof.
  intros Hinv Hclean Hlk Hp.
  pose proof (FlushPageImpl_inv page_id _ Hinv) as Hinv1.
  unfold FlushPageImpl in *. rewrite Hlk in *. simpl in *.
  rewrite (page_at_lookup _ _ _ Hp) in *.
  split; [done|]. split; [by apply issued_app|].
  split; [apply lookup_delete_eq|].
  apply fetch_stored; simpl; try done.
  - apply lookup_delete_eq.
  - apply lookup_insert_eq.
  - right. rewrite evictable_Unpin. set_solver.
Qed.

(** X18: on a pool without dirty frames, unpin with [is_dirty = true] of a
    resident page that carries its identifier and has at most one pin
    writes the buffer under the identifier and removes the page from the
    page table, and a fetch of the identifier right after succeeds and
    brings the same buffer back, with one pin. *)
Theorem unpin_dirty_then_fetch (page_id : Z) b (f : nat) (p : Page) :
  pool_inv b → all_clean b →
  page_table_ b !! page_id = Some f → pages_ b !! f = Some p →
  page_id_ p = page_id → pin_count_ p = 0 ∨ pin_count_ p = 1 →
  (UnpinPageImpl page_id true b).1 = true ∧
  issued b (UnpinPageImpl page_id true b).2 = [CallWrite page_id (data_ p)] ∧
  page_table_ (UnpinPageImpl page_id true b).2 !! page_id = None ∧
  ∃ g b', FetchPageImpl page_id (UnpinPageImpl page_id true b).2 = (Some g, b') ∧
          page_table_ b' !! page_id = Some g ∧
          pages_ b' !! g = Some (mkPage (data_ p) page_id 1 false).
Proof.
  intros Hinv Hclean Hlk Hp Hid Hpin.
  pose proof (UnpinPageImpl_inv page_id true _ Hinv) as Hinv1.
  assert (all_clean (UnpinPageImpl page_id true b).2) as Hclean1.
  { unfold all_clean. apply Forall_lookup. intros g q Hq.
    pose proof (UnpinPageImpl_is_dirty page_id true b g) as Hd.
    unfold page_at in Hd. rewrite (list_lookup_total_correct _ _ _ Hq) in Hd.
    rewrite Hd. destruct (pages_ b !! g) as [q0|] eqn:Hq0.
    - rewrite (list_lookup_total_correct _ _ _ Hq0).
      by apply (proj1 (Forall_lookup _ _) Hclean g q0).
    - by rewrite list_lookup_total_alt, Hq0. }
  unfold UnpinPageImpl in *. rewrite Hlk in *.
  rewrite (page_at_lookup _ _ _ Hp) in *.
  set (page := if 0 <? pin_count_ p then _ else _) in *.
  assert (pin_count_ page = 0 ∧ page_id_ page = page_id ∧ data_ page = data_ p)
    as (Hz & Hid' & Hdt).
  { subst page. destruct (Z.ltb_spec 0 (pin_count_ p)); simpl;
      repeat split; try done; lia. }
  rewrite Hz in *. simpl in *. rewrite Hid', Hdt in *.
  split; [done|]. split; [by apply issued_app|].
  split; [apply lookup_delete_eq|].
  apply fetch_stored; simpl; try done.
  - apply lookup_delete_eq.
  - apply lookup_insert_eq.
  - right. rewrite evictable_Unpin. set_solver.
Qed.

End RoundTrips.

(** ** Flushing everything, deleting *)

Section FlushAllAndDelete.
Context `{PageConfig} {R : Type} `{!Replacer R}.
Implicit Types b : BufferPoolManager R.

(** The loop of [FlushAllPagesImpl] over entries with distinct identifiers:
    the store ends up with the buffer of each entry's frame, and one write
    per entry is logged. *)
Lemma foldl_flush_entry_disk (l : list (Z * nat)) b :
  NoDup l.*1 →
  (∀ page_id,
     stored (disk_manager_ (foldl flush_entry b l)) !! page_id =
     match (list_to_map l : gmap Z nat) !! page_id with
     | Some f => Some (data_ (page_at f b))
     | None => stored (disk_manager_ b) !! page_id
     end) ∧
  calls (disk_manager_ (foldl flush_entry b l)) =
    calls (disk_manager_ b) ++ ((λ e, CallWrite e.1 (data_ (page_at e.2 b))) <$> l).
Proof.
  revert b. induction l as [|[i f] l IH]; intros b Hnd; simpl.
  - split; [intros page_id; by rewrite lookup_empty|by rewrite app_nil_r].
  - apply NoDup_cons in Hnd as [Hi Hnd].
    destruct (IH (flush_entry b (i, f)) Hnd) as [Hst Hc]. split.
    + intros page_id. rewrite Hst. simpl.
      destruct (decide (page_id = i)) as [->|Hne].
      * rewrite (not_elem_of_list_to_map_1 _ _ Hi). by rewrite !lookup_insert_eq.
      * by rewrite !lookup_insert_ne by done.
    + rewrite Hc. simpl. by rewrite <-app_assoc.
Qed.

(** X19: flush_all empties the page table, leaves frames and free list as
    they were, makes every frame of a resident page a candidate of the
    replacer whatever its pin count, and writes every resident page: the
    store then holds, under each resident identifier, the buffer of its
    frame, other identifiers keep what was stored, and the call issues as
    many disk calls as there were resident pages. *)
Theorem FlushAllPagesImpl_effect b :
  page_table_ (FlushAllPagesImpl b) = ∅ ∧
  pages_ (FlushAllPagesImpl b) = pages_ b ∧
  free_list_ (FlushAllPagesImpl b) = free_list_ b ∧
  evictable (replacer_ (FlushAllPagesImpl b))
    = frames_of (page_table_ b) ∪ evictable (replacer_ b) ∧
  (∀ page_id,
     stored (disk_manager_ (FlushAllPagesImpl b)) !! page_id =
     match page_table_ b !! page_id with
     | Some f => Some (data_ (page_at f b))
     | None => stored (disk_manager_ b) !! page_id
     end) ∧
  length (issued b (FlushAllPagesImpl b)) = size (page_table_ b).
Proof.
  unfold FlushAllPagesImpl. simpl.
  destruct (foldl_flush_entry (map_to_list (page_table_ b)) b)
    as (_ & Hp & _ & Hf & He).
  destruct (foldl_flush_entry_disk (map_to_list (page_table_ b)) b
              (NoDup_fst_map_to_list _)) as [Hst Hc].
  split; [done|]. split; [done|]. split; [done|]. split; [|split].
  - rewrite He. unfold frames_of. by rewrite map_img_alt_L.
  - intros page_id. rewrite Hst. by rewrite list_to_map_to_list.
  - unfold issued. simpl. rewrite Hc, drop_app_length, length_fmap.
    apply length_map_to_list.
Qed.

(** X20: the erasure of the victim's old identifier can drop a resident
    page. When fetch takes a frame that still carries the identifier [old]
    of a page meanwhile resident in another frame [g], the page table entry
    of [old] is erased: [g] keeps its contents and pins, but is no longer
    the frame of any identifier, nor in the free list, nor a candidate of
    the replacer. *)
Theorem FetchPageImpl_drops_stale_entry (page_id old : Z) b (f g : nat) b' :
  pool_inv b → page_table_ b !! page_id = None →
  FetchPageImpl page_id b = (Some f, b') →
  page_id_ (page_at f b) = old → old ≠ page_id →
  page_table_ b !! old = Some g →
  page_table_ b' !! old = None ∧
  (∀ page_id', page_table_ b' !! page_id' ≠ Some g) ∧
  (g ∉ free_list_ b') ∧ (g ∉ evictable (replacer_ b')) ∧
  pages_ b' !! g = pages_ b !! g.
Proof.
  intros Hinv Hlk Hf Hold Hne Hg.
  destruct (FetchPageImpl_Some_miss _ _ _ _ Hlk Hf) as [b1 Hv].
  destruct (FetchPageImpl_miss _ _ _ _ Hlk Hv)
    as (b2 & Hf' & _ & Hfl & Hr & Ht & Hps & _).
  rewrite Hf in Hf'. injection Hf' as <-. simpl in *.
  destruct (GetVictimPage_inv _ _ _ Hinv Hv) as (Hinv1 & _ & _ & _ & Hnr).
  destruct (GetVictimPage_Some _ _ _ Hv) as (_ & _ & Ht1 & _).
  assert (g ∈ resident_frames b1) as Hres.
  { unfold resident_frames. rewrite Ht1. by eapply frames_of_lookup. }
  assert (g ≠ f) as Hgf by (by intros ->).
  rewrite Ht, Hps, Hfl, Hr, Hold. repeat split.
  - rewrite lookup_insert_ne by done. apply lookup_delete_eq.
  - intros page_id' Hlk'. apply lookup_insert_Some in Hlk' as [[_ ->]|[_ Hlk']]; [done|].
    apply lookup_delete_Some in Hlk' as [Hne' Hlk'].
    apply Hne'. by apply (inv_table_inj _ Hinv old page_id' g).
  - intros Hin. by apply (inv_free_resident _ Hinv1 g).
  - intros Hin. by apply (inv_evictable_resident _ Hinv1 g).
  - by rewrite list_lookup_insert_ne.
Qed.

Lemma DeletePageImpl_absent page_id freed_read b :
  page_table_ b !! page_id = None → DeletePageImpl page_id freed_read b = (true, b).
Proof. intros Hlk. unfold DeletePageImpl. by rewrite Hlk. Qed.

(** X21: delete_page returns false exactly when the page is resident with a
    positive pin count. After a delete that returned true the identifier
    is not resident, and deleting it again returns true and changes
    nothing. (Whatever the reads of the erased node yield.) *)
Theorem DeletePageImpl_result (page_id : Z) (freed_read freed_read' : nat) b :
  ((DeletePageImpl page_id freed_read b).1 = false ↔
   ∃ f, page_table_ b !! page_id = Some f ∧ 0 < pin_count_ (page_at f b)) ∧
  ((DeletePageImpl page_id freed_read b).1 = true →
   page_table_ (DeletePageImpl page_id freed_read b).2 !! page_id = None ∧
   DeletePageImpl page_id freed_read' (DeletePageImpl page_id freed_read b).2
     = (true, (DeletePageImpl page_id freed_read b).2)).
Proof.
  destruct (page_table_ b !! page_id) as [f|] eqn:Hlk.
  - destruct (Z.ltb_spec 0 (pin_count_ (page_at f b))) as [Hpos|Hle].
    + assert ((DeletePageImpl page_id freed_read b).1 = false) as Hr.
      { unfold DeletePageImpl. rewrite Hlk.
        by destruct (Z.ltb_spec 0 (pin_count_ (page_at f b))); [|lia]. }
      rewrite Hr. split; [|done]. split; [|done]. intros _. by exists f.
    + assert ((DeletePageImpl page_id freed_read b).1 = true ∧
              page_table_ (DeletePageImpl page_id freed_read b).2 !! page_id = None)
        as [Hr Ht].
      { unfold DeletePageImpl. rewrite Hlk.
        destruct (Z.ltb_spec 0 (pin_count_ (page_at f b))); [lia|]. simpl.
        split; [done|apply lookup_delete_eq]. }
      rewrite Hr. split.
      * split; [done|]. intros (g & [= <-] & Hpos). lia.
      * intros _. split; [done|]. by apply DeletePageImpl_absent.
  - rewrite (DeletePageImpl_absent _ _ _ Hlk). simpl. split.
    + split; [done|]. by intros (g & [=] & _).
    + intros _. split; [done|]. by apply DeletePageImpl_absent.
Qed.

End FlushAllAndDelete.

(** ** Filling a fresh pool *)

Section Filling.
Context `{PageConfig} {R : Type} `{!Replacer R}.
Implicit Types b : BufferPoolManager R.

(** The pool after fetching the distinct pages [ids], none of them the
    sentinel, into a fresh pool of [n] frames: page number [i] of the list
    sits in frame [i] with one pin, the frames behind are untouched and make
    up the free list, the replacer has no candidate. *)
Record filled (n : nat) (ids : list Z) b : Prop := {
  filled_free : free_list_ b = seq (length ids) (n - length ids);
  filled_evictable : evictable (replacer_ b) = ∅;
  filled_length : length (pages_ b) = n;
  filled_table : ∀ page_id f, page_table_ b !! page_id = Some f ↔ ids !! f = Some page_id;
  filled_frames : ∀ f page_id, ids !! f = Some page_id →
    ∃ p, pages_ b !! f = Some p ∧ page_id_ p = page_id ∧ pin_count_ p = 1;
  filled_rest : ∀ f, (length ids ≤ f < n)%nat → pages_ b !! f = Some Page_new
}.

Lemma filled_new n d : filled n [] (BufferPoolManager_new n d).
Proof.
  split; simpl.
  - f_equal. lia.
  - apply evictable_new.
  - apply length_replicate.
  - intros page_id f. by rewrite lookup_empty.
  - intros f page_id [=].
  - intros f Hf. apply lookup_replicate_2. lia.
Qed.

Lemma filled_step n ids page_id b :
  (length ids < n)%nat → page_id ∉ ids → page_id ≠ INVALID_PAGE_ID →
  INVALID_PAGE_ID ∉ ids →
  filled n ids b → filled n (ids ++ [page_id]) (FetchPageImpl page_id b).2.
Proof.
  intros Hlt Hnew Hinv Hinvs [Hfl He Hlen Ht Hfr Hrest].
  assert (page_table_ b !! page_id = None) as Hlk.
  { destruct (page_table_ b !! page_id) as [f|] eqn:Hlk; [|done].
    apply Ht in Hlk. destruct Hnew. by eapply list_elem_of_lookup_2. }
  assert (page_table_ b !! INVALID_PAGE_ID = None) as Hlki.
  { destruct (page_table_ b !! INVALID_PAGE_ID) as [f|] eqn:Hlki; [|done].
    apply Ht in Hlki. destruct Hinvs. by eapply list_elem_of_lookup_2. }
  assert (free_list_ b = length ids :: seq (S (length ids)) (n - S (length ids))) as Hfl'.
  { rewrite Hfl. replace (n - length ids)%nat with (S (n - S (length ids))) by lia. done. }
  assert (GetVictimPage b = (Some (length ids), set_free_list (seq (S (length ids)) (n - S (length ids))) b)) as Hv.
  { unfold GetVictimPage. by rewrite Hfl'. }
  destruct (FetchPageImpl_miss _ _ _ _ Hlk Hv)
    as (b' & -> & _ & Hfl1 & Hr1 & Ht1 & Hps & _).
  simpl in *. pose proof (Hrest (length ids) ltac:(lia)) as Hk.
  rewrite (page_at_lookup _ _ _ Hk) in *. simpl in *.
  split; rewrite ?length_app; simpl.
  - rewrite Hfl1. by rewrite Nat.add_1_r.
  - by rewrite Hr1.
  - by rewrite Hps, length_insert.
  - intros id f. rewrite Ht1. rewrite lookup_insert_Some, lookup_delete_Some, Ht.
    rewrite lookup_snoc_Some. split.
    + intros [[<- <-]|(Hne & _ & Hf)]; [by right|].
      left. split; [by eapply lookup_lt_Some|done].
    + intros [[Hf Hid]|[-> <-]]; [|by left].
      right. split; [|split; [|done]].
      * intros ->. destruct Hnew. by eapply list_elem_of_lookup_2.
      * intros <-. destruct Hinvs. by eapply list_elem_of_lookup_2.
  - intros f id [[Hf Hid]|[-> <-]]%lookup_snoc_Some.
    + destruct (Hfr _ _ Hid) as (p & Hp & Hpid & Hpin).
      exists p. rewrite Hps, list_lookup_insert_ne by lia. done.
    + eexists (mkPage _ _ _ _). rewrite Hps. split; [|done].
      apply list_lookup_insert_eq. lia.
  - intros f Hf. rewrite Hps, list_lookup_insert_ne by lia. apply Hrest. lia.
Qed.

Lemma filled_run n d ids :
  NoDup ids → INVALID_PAGE_ID ∉ ids → (length ids ≤ n)%nat →
  filled n ids (run (OpFetch <$> ids) (BufferPoolManager_new n d)).
Proof.
  induction ids as [|page_id ids IH] using rev_ind; intros Hnd Hinv Hlen.
  - apply filled_new.
  - rewrite fmap_app. simpl. rewrite run_snoc. simpl.
    apply NoDup_app in Hnd as (Hnd & Hdisj & _).
    rewrite length_app in Hlen. simpl in Hlen.
    apply filled_step.
    + lia.
    + intros Hin. apply (Hdisj _ Hin). left.
    + intros ->. apply Hinv. apply elem_of_app. right. left.
    + intros Hin. apply Hinv. apply elem_of_app. by left.
    + apply IH; [done| |lia]. intros Hin. apply Hinv. apply elem_of_app. by left.
Qed.

(** X22: fetching as many distinct pages, none of them the sentinel
    identifier, as a freshly constructed pool has frames fills it: the
    [i]-th page is resident in frame [i] with one pin, and every further
    fetch of another page and every new_page fail. *)
Theorem fresh_pool_fills_up (n : nat) (d : DiskManager) (ids : list Z) :
  NoDup ids → INVALID_PAGE_ID ∉ ids → length ids = n →
  (∀ f page_id, ids !! f = Some page_id →
     page_table_ (run (OpFetch <$> ids) (BufferPoolManager_new n d)) !! page_id = Some f ∧
     ∃ p, pages_ (run (OpFetch <$> ids) (BufferPoolManager_new n d)) !! f = Some p ∧
          page_id_ p = page_id ∧ pin_count_ p = 1) ∧
  (∀ page_id, page_id ∉ ids →
     (FetchPageImpl page_id (run (OpFetch <$> ids) (BufferPoolManager_new n d))).1 = None) ∧
  (NewPageImpl (run (OpFetch <$> ids) (BufferPoolManager_new n d))).1 = None.
Proof.
  intros Hnd Hinv Hlen.
  destruct (filled_run n d ids Hnd Hinv ltac:(lia)) as [Hfl He _ Ht Hfr _].
  set (b := run (OpFetch <$> ids) (BufferPoolManager_new n d)) in *.
  rewrite Hlen, Nat.sub_diag in Hfl. simpl in Hfl.
  assert ((GetVictimPage b).1 = None) as Hv by by apply GetVictimPage_fails.
  destruct (GetVictimPage b) as [[g|] b1] eqn:Hv1; [done|].
  split; [|split].
  - intros f page_id Hf. split; [by apply Ht|by apply Hfr].
  - intros page_id Hnin. rewrite (FetchPageImpl_exhausted _ _ b1); [done| |done].
    destruct (page_table_ b !! page_id) as [f|] eqn:Hlk; [|done].
    apply Ht in Hlk. destruct Hnin. by eapply list_elem_of_lookup_2.
  - unfold NewPageImpl. by rewrite Hv1.
Qed.

End Filling.

(** ** Concrete pools for the further properties *)

Section MoreScenarios.

#[local] Existing Instance scenario_page_size.

(** A disk that holds contents for page 5. *)
Definition disk_with_page : DiskManager := mkDisk {[ 5 := some_buffer ]} 0 [].

(** A one-frame pool on that disk with page 5 fetched once. *)
Definition loaded_pool : BufferPoolManager QueueReplacer :=
  run [OpFetch 5] (BufferPoolManager_new 1 disk_with_page).

Lemma loaded_pool_inv : pool_inv loaded_pool.
Proof. by apply pool_inv_reachable. Qed.

(** A sequence with a delete_page whose read is intact: pages 0 and 1 are
    created in frames 0 and 1, page 1 is deleted and its frame 1 put back
    on the free list, page 7 takes it and is released. *)
Definition sample_calls : list Op :=
  [OpNewPage; OpNewPage; OpDeletePage 1 1%nat; OpFetch 7; OpUnpin 7 false].

Lemma page_table_injective_reachable_witness :
  table_inj (page_table_ (run sample_calls (fresh_pool 2))).
Proof.
  refine (page_table_injective_reachable 2 empty_disk sample_calls _).
  vm_compute. reflexivity.
Defined.

Lemma indices_in_range_reachable_witness :
  indices_in_range (run sample_calls (fresh_pool 2)) ∧
  pool_size_ (run sample_calls (fresh_pool 2)) = 2%nat.
Proof.
  refine (indices_in_range_reachable 2 empty_disk sample_calls _).
  vm_compute. reflexivity.
Defined.

Lemma candidates_apart_reachable_witness :
  candidates_apart (run sample_calls (fresh_pool 2)).
Proof.
  refine (candidates_apart_reachable 2 empty_disk sample_calls _).
  vm_compute. reflexivity.
Defined.

Lemma table_agrees_reachable_witness :
  table_agrees (run sample_calls (fresh_pool 2)).
Proof.
  refine (table_agrees_reachable 2 empty_disk sample_calls _).
  vm_compute. reflexivity.
Defined.

Lemma loaded_pool_clean : all_clean loaded_pool.
Proof. apply reachable_frames_clean. Qed.

Lemma no_frame_dirty_reachable_witness :
  pages_ loaded_pool !! 0%nat = Some (mkPage some_buffer 5 1 false) ∧
  is_dirty_ (mkPage some_buffer 5 1 false) = false.
Proof.
  assert (pages_ loaded_pool !! 0%nat = Some (mkPage some_buffer 5 1 false)) as Hp
    by (vm_compute; reflexivity).
  split; [exact Hp|].
  exact (no_frame_dirty_reachable 1 disk_with_page [OpFetch 5] 0%nat _ Hp).
Defined.

Lemma pin_count_range_reachable_witness :
  pages_ (run [OpFetch 5; OpFetch 5; OpFetch 5; OpUnpin 5 false] (fresh_pool 1))
    !! 0%nat = Some (mkPage zero_buffer 5 2 false) ∧
  0 ≤ pin_count_ (mkPage zero_buffer 5 2 false) ≤ 4.
Proof.
  assert (pages_ (run [OpFetch 5; OpFetch 5; OpFetch 5; OpUnpin 5 false] (fresh_pool 1))
            !! 0%nat = Some (mkPage zero_buffer 5 2 false)) as Hp
    by (vm_compute; reflexivity).
  split; [exact Hp|].
  refine (pin_count_range_reachable 1 empty_disk
            [OpFetch 5; OpFetch 5; OpFetch 5; OpUnpin 5 false] 0%nat _ _ Hp).
  reflexivity.
Defined.

Lemma GetVictimPage_exclusive_witness :
  (0 < length (pages_ (GetVictimPage (fresh_pool 2)).2))%nat ∧
  (0%nat ∉ free_list_ (GetVictimPage (fresh_pool 2)).2) ∧
  (0%nat ∉ evictable (replacer_ (GetVictimPage (fresh_pool 2)).2)) ∧
  (∀ page_id, page_table_ (GetVictimPage (fresh_pool 2)).2 !! page_id ≠ Some 0%nat) ∧
  (free_list_ (fresh_pool 2) ≠ [] →
   free_list_ (fresh_pool 2) = 0%nat :: free_list_ (GetVictimPage (fresh_pool 2)).2 ∧
   replacer_ (GetVictimPage (fresh_pool 2)).2 = replacer_ (fresh_pool 2)).
Proof.
  refine (GetVictimPage_exclusive (fresh_pool 2) 0%nat _ _ _).
  - apply pool_inv_new.
  - vm_compute. reflexivity.
Defined.

Lemma FetchPageImpl_success_witness :
  page_table_ (FetchPageImpl 5 loaded_pool).2 !! 5 = Some 0%nat ∧
  (∃ p, pages_ (FetchPageImpl 5 loaded_pool).2 !! 0%nat = Some p ∧
        page_id_ p = 5 ∧ 1 ≤ pin_count_ p) ∧
  (0%nat ∉ free_list_ (FetchPageImpl 5 loaded_pool).2) ∧
  (0%nat ∉ evictable (replacer_ (FetchPageImpl 5 loaded_pool).2)).
Proof.
  refine (FetchPageImpl_success 1 disk_with_page [OpFetch 5] 5 0%nat _ _ _ _).
  - reflexivity.
  - reflexivity.
  - vm_compute. reflexivity.
Defined.

Lemma FetchPageImpl_miss_contents_witness :
  data_ (page_at 0 (FetchPageImpl 3 dirty_victim_pool).2) = some_buffer.
Proof.
  refine (FetchPageImpl_miss_contents 3 dirty_victim_pool 0%nat _ _ _ _).
  - vm_compute. reflexivity.
  - vm_compute. reflexivity.
  - simpl. lia.
Defined.

Lemma fetch_then_unpin_witness :
  (UnpinPageImpl 5 true (FetchPageImpl 5 loaded_pool).2).1 = false ∧
  pages_ (UnpinPageImpl 5 true (FetchPageImpl 5 loaded_pool).2).2 = pages_ loaded_pool ∧
  page_table_ (UnpinPageImpl 5 true (FetchPageImpl 5 loaded_pool).2).2
    = page_table_ loaded_pool ∧
  free_list_ (UnpinPageImpl 5 true (FetchPageImpl 5 loaded_pool).2).2
    = free_list_ loaded_pool ∧
  disk_manager_ (UnpinPageImpl 5 true (FetchPageImpl 5 loaded_pool).2).2
    = disk_manager_ loaded_pool.
Proof.
  refine (fetch_then_unpin 5 true loaded_pool 0%nat (mkPage some_buffer 5 1 false) _ _ _).
  - vm_compute. reflexivity.
  - vm_compute. reflexivity.
  - simpl. lia.
Defined.

Lemma UnpinPageImpl_more_pins_witness :
  UnpinPageImpl 5 true (run [OpFetch 5] loaded_pool) =
    (false, set_page_at 0 (mkPage some_buffer 5 1 false) (run [OpFetch 5] loaded_pool)).
Proof.
  refine (UnpinPageImpl_more_pins 5 true (run [OpFetch 5] loaded_pool) 0%nat
            (mkPage some_buffer 5 2 false) _ _ _).
  - vm_compute. reflexivity.
  - vm_compute. reflexivity.
  - simpl. lia.
Defined.

Lemma flush_then_fetch_witness :
  (FlushPageImpl 5 loaded_pool).1 = true ∧
  issued loaded_pool (FlushPageImpl 5 loaded_pool).2 = [CallWrite 5 some_buffer] ∧
  page_table_ (FlushPageImpl 5 loaded_pool).2 !! 5 = None ∧
  ∃ g b', FetchPageImpl 5 (FlushPageImpl 5 loaded_pool).2 = (Some g, b') ∧
          page_table_ b' !! 5 = Some g ∧
          pages_ b' !! g = Some (mkPage some_buffer 5 1 false).
Proof.
  refine (flush_then_fetch 5 loaded_pool 0%nat (mkPage some_buffer 5 1 false)
            loaded_pool_inv loaded_pool_clean _ _).
  - vm_compute. reflexivity.
  - vm_compute. reflexivity.
Defined.

Lemma unpin_dirty_then_fetch_witness :
  (UnpinPageImpl 5 true loaded_pool).1 = true ∧
  issued loaded_pool (UnpinPageImpl 5 true loaded_pool).2 = [CallWrite 5 some_buffer] ∧
  page_table_ (UnpinPageImpl 5 true loaded_pool).2 !! 5 = None ∧
  ∃ g b', FetchPageImpl 5 (UnpinPageImpl 5 true loaded_pool).2 = (Some g, b') ∧
          page_table_ b' !! 5 = Some g ∧
          pages_ b' !! g = Some (mkPage some_buffer 5 1 false).
Proof.
  refine (unpin_dirty_then_fetch 5 loaded_pool 0%nat (mkPage some_buffer 5 1 false)
            loaded_pool_inv loaded_pool_clean _ _ _ _).
  - vm_compute. reflexivity.
  - vm_compute. reflexivity.
  - reflexivity.
  - right. reflexivity.
Defined.

(** A two-frame pool in which page 5 was released from frame 0 and fetched
    again into frame 1: frame 0, offered by the replacer, still carries
    identifier 5. *)
Definition stale_pool : BufferPoolManager QueueReplacer :=
  run [OpFetch 5; OpUnpin 5 false; OpFetch 5] (fresh_pool 2).

Lemma FetchPageImpl_drops_stale_entry_witness :
  page_table_ (FetchPageImpl 6 stale_pool).2 !! 5 = None ∧
  (∀ page_id', page_table_ (FetchPageImpl 6 stale_pool).2 !! page_id' ≠ Some 1%nat) ∧
  (1%nat ∉ free_list_ (FetchPageImpl 6 stale_pool).2) ∧
  (1%nat ∉ evictable (replacer_ (FetchPageImpl 6 stale_pool).2)) ∧
  pages_ (FetchPageImpl 6 stale_pool).2 !! 1%nat = pages_ stale_pool !! 1%nat.
Proof.
  refine (FetchPageImpl_drops_stale_entry 6 5 stale_pool 0%nat 1%nat _ _ _ _ _ _ _).
  - by apply pool_inv_reachable.
  - vm_compute. reflexivity.
  - vm_compute. reflexivity.
  - vm_compute. reflexivity.
  - discriminate.
  - vm_compute. reflexivity.
Defined.

Lemma fresh_pool_fills_up_witness :
  (∀ f page_id, [7; 9] !! f = Some page_id →
     page_table_ (run (OpFetch <$> [7; 9]) (fresh_pool 2)) !! page_id = Some f ∧
     ∃ p, pages_ (run (OpFetch <$> [7; 9]) (fresh_pool 2)) !! f = Some p ∧
          page_id_ p = page_id ∧ pin_count_ p = 1) ∧
  (∀ page_id, page_id ∉ [7; 9] →
     (FetchPageImpl page_id (run (OpFetch <$> [7; 9]) (fresh_pool 2))).1 = None) ∧
  (NewPageImpl (run (OpFetch <$> [7; 9]) (fresh_pool 2))).1 = None.
Proof.
  refine (fresh_pool_fills_up 2 empty_disk [7; 9] _ _ _).
  - repeat constructor; set_solver.
  - unfold INVALID_PAGE_ID. set_solver.
  - reflexivity.
Defined.

End MoreScenarios.
